(** * Interactive avatar server: a shallow embedding and its properties

    The development follows [interactive_avatar_server.py] and the four
    service wrappers under [services/].  Python objects are modelled as records,
    the module-level dictionary [active_sessions] as a finite map keyed by
    session id, coroutines as state-passing computations that either
    return or raise, and the remote back ends (Whisper, chat completion,
    speech synthesis, the video pipeline) as an environment of outcomes. *)

From Stdlib Require Import ZArith Ascii String.
From stdpp Require Import base option list strings pretty functions gmap.

Open Scope string_scope.
Open Scope nat_scope.

(** ** Results of fallible code *)

(** A Python exception, kept by what [str(e)] prints. *)
Record exn := Exn { exn_str : string }.

Inductive result (A : Type) : Type :=
  | Ok (a : A)
  | Raise (e : exn).
Arguments Ok {A} a.
Arguments Raise {A} e.

(** ** The text of a key error *)

(** [str(KeyError(k))] is [repr(k)].  A character of the model stands for
    the Python character of the same code point (up to 255).  [repr]
    puts the string in single quotes, or in double quotes when it holds a
    single quote and no double quote; it escapes the backslash and the
    chosen quote, writes tab, line feed and carriage return as letters,
    and every other character that is not printable as a hexadecimal
    escape. *)
Definition double_quote : ascii := "034"%char.
Definition backslash : ascii := "092"%char.

Definition escaped (c : ascii) : string :=
  String backslash (String c EmptyString).

Fixpoint string_has (c : ascii) (s : string) : bool :=
  match s with
  | EmptyString => false
  | String x rest => Ascii.eqb x c || string_has c rest
  end.

Definition hex_digit (n : nat) : ascii :=
  ascii_of_nat (if n <? 10 then 48 + n else 87 + n).

Definition hex_escape (c : ascii) : string :=
  String backslash (String "x"
    (String (hex_digit (nat_of_ascii c / 16))
       (String (hex_digit (nat_of_ascii c mod 16)) EmptyString))).

(** [str.isprintable] on one character, for code points up to 255. *)
Definition printable (n : nat) : bool :=
  ((32 <=? n) && (n <? 127)) || ((161 <=? n) && negb (n =? 173)).

Definition repr_char (quote c : ascii) : string :=
  if Ascii.eqb c quote || Ascii.eqb c backslash then escaped c
  else if Ascii.eqb c "009" then escaped "t"
  else if Ascii.eqb c "010" then escaped "n"
  else if Ascii.eqb c "013" then escaped "r"
  else if printable (nat_of_ascii c) then String c EmptyString
  else hex_escape c.

Fixpoint repr_body (quote : ascii) (s : string) : string :=
  match s with
  | EmptyString => EmptyString
  | String c rest => repr_char quote c ++ repr_body quote rest
  end.

Definition py_repr (s : string) : string :=
  let quote :=
    if string_has "'" s && negb (string_has double_quote s)
    then double_quote else "'"%char in
  String quote (repr_body quote s ++ String quote EmptyString).

(** ** Conversation history (the buffer of one session) *)

Module History.

(** The [role] strings in use: the chat request adds a [system] entry in
    front; the buffer itself only ever receives the other two. *)
Inductive role := System | User | Assistant.

(** One entry [{"role": ..., "content": ...}]. *)
Record message := Message { msg_role : role; msg_content : string }.

#[export] Instance role_eq_dec : EqDecision role.
Proof. solve_decision. Defined.

#[export] Instance message_eq_dec : EqDecision message.
Proof. solve_decision. Defined.

(** [l.append(x)]. *)
Definition append (l : list message) (x : message) : list message :=
  l ++ [x].

(** [l[-n:]] for [n > 0]: the last [n] items, all of [l] when it is
    shorter. *)
Definition last_n (n : nat) (l : list message) : list message :=
  drop (length l - n) l.

(** The cap of lines 222-224:
    [if len(h) > 10: h = h[-10:]]. *)
Definition keep_last_10 (h : list message) : list message :=
  if decide (10 < length h) then last_n 10 h else h.

(** Lines 219-225 of [process_user_input] as one function of the list
    stored in the session: two appends, then the cap. *)
Definition commit (h : list message) (user_text llm_response : string)
  : list message :=
  keep_last_10
    (append (append h (Message User user_text))
            (Message Assistant llm_response)).

(** A run of committed turns, oldest first. *)
Fixpoint commit_all (h : list message) (turns : list (string * string))
  : list message :=
  match turns with
  | [] => h
  | (u, a) :: rest => commit_all (commit h u a) rest
  end.

(** Histories made of whole [user, assistant] pairs only. *)
Fixpoint paired (h : list message) : Prop :=
  match h with
  | [] => True
  | Message User _ :: Message Assistant _ :: rest => paired rest
  | _ => False
  end.

End History.

Import History.

(** ** Session registry: the dictionary [active_sessions] *)

Record session := Session {
  conversation_history : list message;
  websocket : nat                      (* the connection handle *)
}.

Module Registry.

(** [del d[k]]: raises [KeyError] on a missing key. *)
Definition py_del (k : string) (d : gmap string session)
  : result (gmap string session) :=
  match d !! k with
  | Some _ => Ok (delete k d)
  | None => Raise (Exn (py_repr k))
  end.

(** [k in d]. *)
Definition py_in (k : string) (d : gmap string session) : bool :=
  bool_decide (is_Some (d !! k)).

(** The [finally] block of [websocket_endpoint] (lines 134-137):
    [if session_id in active_sessions: del active_sessions[session_id]]. *)
Definition remove (session_id : string) (d : gmap string session)
  : result (gmap string session) :=
  if py_in session_id d then py_del session_id d else Ok d.

(** Lines 102-105: a new entry with an empty history. *)
Definition create (session_id : string) (ws : nat)
    (d : gmap string session) : gmap string session :=
  <[session_id := Session [] ws]> d.

End Registry.

(** ** Settings and the service objects *)

(** The fields of [config/settings.py] read by the modelled code.  Values
    come from the process environment; [default_settings] are the in-code
    defaults. *)
Record Settings := {
  default_avatar_prompt : string;
  default_avatar_image : string;
  liveavatar_size : string
}.

Definition default_settings : Settings := {|
  default_avatar_prompt := "A person speaking naturally";
  default_avatar_image := "examples/man.png";
  liveavatar_size := "704*384"
|}.

Record STTService := { stt_model : string }.
Record LLMService := { system_prompt : string }.
Record TTSService := { tts_voice : string }.

(** [AvatarService]: the pipeline object is opaque, the flag is not. *)
Record AvatarService := { is_initialized : bool }.

#[export] Instance AvatarService_eq_dec : EqDecision AvatarService.
Proof. solve_decision. Defined.

(** [a or b] on an [Optional[str]] left operand: [None] and the empty
    string are both falsy. *)
Definition py_or (a : option string) (b : string) : string :=
  match a with
  | None => b
  | Some s => if decide (s = "") then b else s
  end.

(** ** Files *)

Definition bytes := list Byte.byte.

Inductive node :=
  | RegularFile (data : bytes)
  | Directory.

(** A component that counts in a [Path]: pathlib drops empty components
    (doubled or trailing separators) and ["."]. *)
Definition real_component (component : string) : bool :=
  negb (String.eqb component "" || String.eqb component ".").

(** [Path(p).name]: the last component that counts, the empty string when
    there is none.  [last] is the last such component read so far, [cur]
    the component being read. *)
Fixpoint path_name_from (last cur s : string) : string :=
  match s with
  | EmptyString => if real_component cur then cur else last
  | String c rest =>
      if Ascii.eqb c "/"%char then
        path_name_from (if real_component cur then cur else last) "" rest
      else path_name_from last (cur ++ String c "") rest
  end.

Definition path_name (p : string) : string := path_name_from "" "" p.

(** [Path(d) / name] and [os.path.join(d, name)] for a relative [name]
    (the route segment [{filename}] never holds a separator). *)
Definition path_join (d name : string) : string := d ++ "/" ++ name.

Definition output_dir : string := "output/interactive".

(** ** Frames sent to the client *)

Inductive status := transcribing | thinking | synthesizing | generating_video.

Inductive frame :=
  | Connection (session_id message : string)
  | Status (st : status) (message : string)
  | Transcription (text : string)
  | Response (text : string)
  | VideoReady (video_url message : string)
  | Error (message : string)
  | ConfigUpdated (message : string).

#[export] Instance status_eq_dec : EqDecision status.
Proof. solve_decision. Defined.

#[export] Instance frame_eq_dec : EqDecision frame.
Proof. solve_decision. Defined.

Definition is_error (f : frame) : bool :=
  match f with Error _ => true | _ => false end.

Definition is_video_ready (f : frame) : bool :=
  match f with VideoReady _ _ => true | _ => false end.

Definition is_response (f : frame) : bool :=
  match f with Response _ => true | _ => false end.

(** One connection as the server sees it: what has been sent so far, and
    how many more frames the peer will take before [send_json] starts to
    raise ([None]: the peer stays for good). *)
Record socket := Socket {
  sent : list frame;
  credit : option nat
}.

(** ** The remote back ends *)

(** Outcomes of the calls that leave the process, as functions of what the
    code passes to them. *)
Record backend := {
  settings : Settings;
  whisper : bytes -> result string;
  chat_completion : list message -> result string;
  speech : string -> result bytes;
  load_pipeline : result unit;
  pipeline_generate :
    string -> string -> string -> nat -> Z -> result bytes;
  timestamp : string
}.

(** ** Server state and computations over it *)

Record server := Server {
  active_sessions : gmap string session;
  stt_service : option STTService;
  llm_service : option LLMService;
  tts_service : option TTSService;
  avatar_service : option AvatarService;
  files : gmap string node;
  tmp_counter : nat;
  sockets : gmap nat socket
}.

Definition set_sessions (f : gmap string session -> gmap string session)
    (s : server) : server :=
  Server (f (active_sessions s)) (stt_service s) (llm_service s)
         (tts_service s) (avatar_service s) (files s) (tmp_counter s)
         (sockets s).

Definition set_avatar (a : option AvatarService) (s : server) : server :=
  Server (active_sessions s) (stt_service s) (llm_service s)
         (tts_service s) a (files s) (tmp_counter s) (sockets s).

Definition set_files (f : gmap string node -> gmap string node)
    (s : server) : server :=
  Server (active_sessions s) (stt_service s) (llm_service s)
         (tts_service s) (avatar_service s) (f (files s)) (tmp_counter s)
         (sockets s).

Definition set_tmp_counter (n : nat) (s : server) : server :=
  Server (active_sessions s) (stt_service s) (llm_service s)
         (tts_service s) (avatar_service s) (files s) n (sockets s).

Definition set_sockets (f : gmap nat socket -> gmap nat socket)
    (s : server) : server :=
  Server (active_sessions s) (stt_service s) (llm_service s)
         (tts_service s) (avatar_service s) (files s) (tmp_counter s)
         (f (sockets s)).

(** A coroutine body: it runs on a state and returns or raises; what it
    wrote before raising stays written. *)
Definition M (A : Type) : Type := server -> result A * server.

Definition ret {A} (a : A) : M A := fun s => (Ok a, s).

Definition raise {A} (e : exn) : M A := fun s => (Raise e, s).

Definition bind {A B} (m : M A) (k : A -> M B) : M B :=
  fun s =>
    match m s with
    | (Ok a, s') => k a s'
    | (Raise e, s') => (Raise e, s')
    end.

(** [try: body  except Exception as e: handler(e)]. *)
Definition try_except {A} (body : M A) (handler : exn -> M A) : M A :=
  fun s =>
    match body s with
    | (Ok a, s') => (Ok a, s')
    | (Raise e, s') => handler e s'
    end.

(** [try: body  finally: cleanup]. *)
Definition try_finally {A} (body : M A) (cleanup : M unit) : M A :=
  fun s =>
    match body s with
    | (r, s') =>
        match cleanup s' with
        | (Ok _, s'') => (r, s'')
        | (Raise e, s'') => (Raise e, s'')
        end
    end.

Definition get : M server := fun s => (Ok s, s).

Definition modify (f : server -> server) : M unit := fun s => (Ok tt, f s).

Definition lift {A} (r : result A) : M A := fun s => (r, s).

Notation "'let*' x ':=' m 'in' k" := (bind m (fun x => k))
  (at level 10, x name, m at level 100, k at level 200,
   format "'[v' 'let*'  x  ':='  m  'in' '/' k ']'").
Notation "'await' m 'then' k" := (bind m (fun _ => k))
  (at level 10, m at level 100, k at level 200,
   format "'[v' 'await'  m  'then' '/' k ']'").

(** Calling a method on a global that is still [None]. *)
Definition attribute_error (method : string) : exn :=
  Exn ("'NoneType' object has no attribute '" ++ method ++ "'").

(** ** Primitive effects *)

(** [await websocket.send_json(f)]: appends to what the peer received, or
    raises once the peer is gone. *)
Definition send_json (ws : nat) (f : frame) : M unit :=
  fun s =>
    match sockets s !! ws with
    | Some (Socket out None) =>
        (Ok tt, set_sockets <[ws := Socket (out ++ [f]) None]> s)
    | Some (Socket out (Some (S n))) =>
        (Ok tt, set_sockets <[ws := Socket (out ++ [f]) (Some n)]> s)
    | _ => (Raise (Exn "WebSocketDisconnect"), s)
    end.

(** [tempfile.NamedTemporaryFile(suffix=..., delete=False)]: a new empty
    file that outlives the handle; returns its name. *)
Definition named_temporary_file (suffix : string) : M string :=
  fun s =>
    let name := "/tmp/tmp" ++ pretty (tmp_counter s) ++ suffix in
    (Ok name,
     set_tmp_counter (S (tmp_counter s))
       (set_files <[name := RegularFile []]> s)).

Definition write_file (path : string) (data : bytes) : M unit :=
  modify (set_files <[path := RegularFile data]>).

(** [os.path.exists(path)]. *)
Definition path_exists (path : string) : M bool :=
  fun s => (Ok (bool_decide (is_Some (files s !! path))), s).

(** [os.unlink(path)]. *)
Definition unlink (path : string) : M unit :=
  fun s =>
    match files s !! path with
    | Some (RegularFile _) => (Ok tt, set_files (delete path) s)
    | Some Directory => (Raise (Exn "IsADirectoryError"), s)
    | None => (Raise (Exn "FileNotFoundError"), s)
    end.

(** One level of [os.makedirs(..., exist_ok=True)]. *)
Definition mkdir_exist_ok (path : string) : M unit :=
  fun s =>
    match files s !! path with
    | None => (Ok tt, set_files <[path := Directory]> s)
    | Some Directory => (Ok tt, s)
    | Some (RegularFile _) => (Raise (Exn "FileExistsError"), s)
    end.

(** ** The services *)

(** [STTService.transcribe] (stt_service.py, lines 24-58); the [except]
    clause logs and re-raises. *)
Definition transcribe (b : backend) (audio_data : bytes) : M string :=
  let* temp_audio_path := named_temporary_file ".wav" in
  await write_file temp_audio_path audio_data then
  let* transcript := lift (whisper b audio_data) in
  await unlink temp_audio_path then
  ret transcript.

(** [LLMService.generate_response] (llm_service.py, lines 36-78). *)
Definition generate_response (b : backend) (self : LLMService)
    (user_message : string) (conversation_history : list message)
  : M string :=
  let messages : list message :=
    ([Message System (system_prompt self)] ++ conversation_history
       ++ [Message User user_message])%list in
  lift (chat_completion b messages).

(** [TTSService.synthesize] with [output_path=None]
    (tts_service.py, lines 24-51). *)
Definition synthesize (b : backend) (text : string) : M string :=
  let* output_path := named_temporary_file ".mp3" in
  let* response := lift (speech b text) in
  await write_file output_path response then
  ret output_path.

(** [self.is_initialized = True] (line 113).  The process has one
    [AvatarService] object, the one the global names; the write shows in
    the global when [self] is that object and nowhere otherwise. *)
Definition set_initialized (self : AvatarService) : M unit :=
  modify (fun s =>
    if decide (avatar_service s = Some self)
    then set_avatar (Some {| is_initialized := true |}) s
    else s).

(** [AvatarService._initialize_sync] (avatar_service.py, lines 40-120):
    all of the loading is one fallible step; the flag is set last. *)
Definition initialize_sync (b : backend) (self : AvatarService)
  : M unit :=
  if is_initialized self then ret tt
  else
    await lift (load_pipeline b) then
    set_initialized self.

(** The longest file name the file system takes (NAME_MAX on Linux). *)
Definition NAME_MAX : nat := 255.

(** [save_video(..., save_file=output_path, ...)] followed by
    [merge_video_audio] (lines 213-224): the file is made at
    [output_path]; the system refuses a name longer than [NAME_MAX]. *)
Definition save_video (output_path : string) (video : bytes) : M unit :=
  if decide (NAME_MAX < String.length (path_name output_path)) then
    raise (Exn "[Errno 36] File name too long")
  else write_file output_path video.

(** [AvatarService._generate_sync] (lines 166-237). *)
Definition generate_sync (b : backend) (audio_path prompt
    reference_image : string) (num_clips : nat) (seed : Z) : M string :=
  let* video :=
    lift (pipeline_generate b prompt reference_image audio_path
            num_clips seed) in
  let output_path :=
    path_join output_dir ("avatar_" ++ timestamp b ++ ".mp4") in
  await mkdir_exist_ok "output" then
  await mkdir_exist_ok output_dir then
  await save_video output_path video then
  ret output_path.

(** [AvatarService.generate_avatar_video] (lines 122-164). *)
Definition generate_avatar_video (b : backend) (self : AvatarService)
    (audio_path : string) (prompt reference_image : option string)
    (num_clips : nat) (seed : Z) : M string :=
  await (if negb (is_initialized self) then initialize_sync b self
         else ret tt) then
  let prompt := py_or prompt (default_avatar_prompt (settings b)) in
  let reference_image :=
    py_or reference_image (default_avatar_image (settings b)) in
  generate_sync b audio_path prompt reference_image num_clips seed.

(** ** The request handlers of [interactive_avatar_server.py] *)

(** [active_sessions[session_id]]; a missing key raises [KeyError], whose
    text is the [repr] of the key. *)
Definition lookup_session (session_id : string) : M session :=
  fun s =>
    match active_sessions s !! session_id with
    | Some x => (Ok x, s)
    | None => (Raise (Exn (py_repr session_id)), s)
    end.

(** The local [conversation_history] is the very list object stored in
    the session, so [conversation_history.append(x)] is a write to the
    session's list. *)
Definition history_append (session_id : string) (x : message) : M unit :=
  modify (set_sessions (alter
    (fun ss => Session (append (conversation_history ss) x) (websocket ss))
    session_id)).

(** Lines 223-225: the slice makes a new list, the session is pointed at
    it. *)
Definition history_cap (session_id : string) : M unit :=
  modify (set_sessions (alter
    (fun ss => Session (keep_last_10 (conversation_history ss))
                       (websocket ss))
    session_id)).

(** [process_user_input] (lines 192-270) is read in the three blocks its
    comments mark out.  First block, lines 195-216: find the session, tell
    the client, ask the language model, send the reply text. *)
Definition generate_stage (b : backend) (session_id user_text : string)
    (ws : nat) : M string :=
  let* session := lookup_session session_id in
  let history := conversation_history session in
  await send_json ws (Status thinking "Generating response...") then
  let* s := get in
  let* llm_response :=
    match llm_service s with
    | Some llm => generate_response b llm user_text history
    | None => raise (attribute_error "generate_response")
    end in
  await send_json ws (Response llm_response) then
  ret llm_response.

(** Second block, lines 218-225: the history update. *)
Definition commit_stage (session_id user_text llm_response : string)
  : M unit :=
  await history_append session_id (Message User user_text) then
  await history_append session_id (Message Assistant llm_response) then
  history_cap session_id.

(** Third block, lines 227-261: speech, video, the result frame, and the
    removal of the speech file. *)
Definition deliver_stage (b : backend) (llm_response : string) (ws : nat)
  : M unit :=
  await send_json ws (Status synthesizing "Synthesizing speech...") then
  let* s := get in
  let* audio_path :=
    match tts_service s with
    | Some _ => synthesize b llm_response
    | None => raise (attribute_error "synthesize")
    end in
  await send_json ws
    (Status generating_video "Generating avatar video...") then
  let* s := get in
  let* video_path :=
    match avatar_service s with
    | Some avatar =>
        generate_avatar_video b avatar audio_path None None 1 420
    | None => raise (attribute_error "generate_avatar_video")
    end in
  await send_json ws
    (VideoReady ("/video/" ++ path_name video_path)
                "Avatar video ready!") then
  let* present := path_exists audio_path in
  if present then unlink audio_path else ret tt.

(** The [try] suite of [process_user_input]. *)
Definition process_user_input_body (b : backend)
    (session_id user_text : string) (ws : nat) : M unit :=
  let* llm_response := generate_stage b session_id user_text ws in
  await commit_stage session_id user_text llm_response then
  deliver_stage b llm_response ws.

(** The whole function: the suite under its [except Exception] clause
    (lines 263-270). *)
Definition process_user_input (b : backend) (session_id user_text : string)
    (ws : nat) : M unit :=
  try_except
    (process_user_input_body b session_id user_text ws)
    (fun e => send_json ws (Error ("Processing failed: " ++ exn_str e))).

(** Lines 164-179 of [handle_audio]: status, transcription, its frame. *)
Definition transcribe_stage (b : backend) (audio_data : bytes) (ws : nat)
  : M string :=
  await send_json ws
    (Status transcribing "Transcribing your speech...") then
  let* s := get in
  let* user_text :=
    match stt_service s with
    | Some _ => transcribe b audio_data
    | None => raise (attribute_error "transcribe")
    end in
  await send_json ws (Transcription user_text) then
  ret user_text.

(** [handle_audio] (lines 159-189). *)
Definition handle_audio (b : backend) (session_id : string)
    (audio_data : bytes) (ws : nat) : M unit :=
  try_except
    (let* user_text := transcribe_stage b audio_data ws in
     process_user_input b session_id user_text ws)
    (fun e =>
       send_json ws (Error ("Audio processing failed: " ++ exn_str e))).

(** [handle_message] (lines 141-156); [data] is the decoded JSON object,
    kept to its string-valued fields. *)
Definition handle_message (b : backend) (session_id : string)
    (data : gmap string string) (ws : nat) : M unit :=
  let message_type := data !! "type" in
  if decide (message_type = Some "text_input") then
    let user_text := default "" (data !! "text") in
    process_user_input b session_id user_text ws
  else if decide (message_type = Some "config") then
    send_json ws (ConfigUpdated "Configuration updated")
  else ret tt.

(** What [websocket.receive()] hands back. *)
Inductive received :=
  | ReceiveText (data : option (gmap string string))
      (* [None]: text that [json.loads] rejects *)
  | ReceiveBytes (audio_data : bytes)
  | ReceiveDisconnect.

(** One pass through the body of the [while True] loop (lines 116-126)
    for a frame that was received. *)
Definition dispatch (b : backend) (session_id : string) (ws : nat)
    (message : received) : M unit :=
  match message with
  | ReceiveText None => raise (Exn "JSONDecodeError")
  | ReceiveText (Some data) => handle_message b session_id data ws
  | ReceiveBytes audio_data => handle_audio b session_id audio_data ws
  | ReceiveDisconnect => ret tt
  end.

(** The loop of [websocket_endpoint] (lines 114-126) over the frames the
    client sends before it goes away.  After the disconnect message, and
    when the peer is lost, [receive()] raises. *)
Fixpoint receive_loop (b : backend) (session_id : string) (ws : nat)
    (inbound : list received) : M unit :=
  match inbound with
  | [] => raise (Exn "WebSocketDisconnect")
  | ReceiveDisconnect :: _ =>
      await dispatch b session_id ws ReceiveDisconnect then
      raise (Exn "Cannot call receive once a disconnect message has been received.")
  | message :: rest =>
      await dispatch b session_id ws message then
      receive_loop b session_id ws rest
  end.

(** The [finally] block (lines 134-138). *)
Definition cleanup_session (session_id : string) : M unit :=
  fun s =>
    match Registry.remove session_id (active_sessions s) with
    | Ok d => (Ok tt, set_sessions (fun _ => d) s)
    | Raise e => (Raise e, s)
    end.

(** [websocket_endpoint] (lines 93-138); the session id is the formatted
    time of acceptance. *)
Definition websocket_endpoint (b : backend) (session_id : string)
    (ws : nat) (inbound : list received) : M unit :=
  await modify (set_sessions (Registry.create session_id ws)) then
  try_finally
    (try_except
       (await send_json ws
          (Connection session_id "Connected to Interactive Avatar") then
        receive_loop b session_id ws inbound)
       (fun _ => ret tt))
    (cleanup_session session_id).

(** ** Plain HTTP routes *)

Record service_flags := {
  stt : bool; llm : bool; tts : bool; avatar : bool
}.

Record health := { health_status : string; services : service_flags }.

(** [x is not None]. *)
Definition is_not_none {A} (x : option A) : bool :=
  match x with Some _ => true | None => false end.

(** [health_check] (lines 79-90). *)
Definition health_check (s : server) : health := {|
  health_status := "healthy";
  services := {|
    stt := is_not_none (stt_service s);
    llm := is_not_none (llm_service s);
    tts := is_not_none (tts_service s);
    avatar :=
      match avatar_service s with
      | Some a => is_initialized a
      | None => false
      end
  |}
|}.

Inductive http_response :=
  | FileResponse (path media_type : string)
  | HTTPException (status_code : nat) (detail : string)
  | ServerError (e : exn).
      (* another exception left the handler: the framework answers 500 *)

(** [Path("output/interactive") / filename] for a [filename] of one
    component: the empty name and ["."] give the directory itself. *)
Definition video_path_of (filename : string) : string :=
  if decide (filename = "" ∨ filename = ".") then output_dir
  else path_join output_dir filename.

(** [video_path.exists()]: [os.stat] raises [OSError] on a name longer
    than [NAME_MAX], and [exists] lets it through; [".."] is followed to
    the parent, which is there when [output/interactive] is a directory;
    any other name is looked up, and an entry of any kind counts. *)
Definition video_path_exists (fs : gmap string node) (filename : string)
  : result bool :=
  if decide (NAME_MAX < String.length filename) then
    Raise (Exn "[Errno 36] File name too long")
  else if decide (filename = "..") then
    Ok match fs !! output_dir with
       | Some Directory => true
       | _ => false
       end
  else Ok (bool_decide (is_Some (fs !! video_path_of filename))).

(** [serve_video] (lines 273-279), for the one-component names the route
    [/video/{filename}] lets in. *)
Definition serve_video (fs : gmap string node) (filename : string)
  : http_response :=
  let video_path := video_path_of filename in
  match video_path_exists fs filename with
  | Raise e => ServerError e
  | Ok present =>
      if negb present then HTTPException 404 "Video not found"
      else FileResponse video_path "video/mp4"
  end.

(** ** Renders of several sessions on the default executor

    [generate_avatar_video] hands [_generate_sync] to
    [loop.run_in_executor(None, ...)] (avatar_service.py, lines 152-162):
    the event loop's default thread pool, with no lock around the call.
    Each connection is its own coroutine, which awaits one handler at a
    time (lines 114-126).  The model below interleaves the coroutines and
    the pool's workers at the granularity of those calls. *)

Module Executor.

(** Where the coroutine of one connection stands. *)
Inductive phase :=
  | Idle        (* in [websocket.receive()] *)
  | Preparing   (* in a handler, before line 246 *)
  | Queued      (* work item in the pool's queue *)
  | Rendering.  (* a worker runs [_generate_sync] for it *)

#[export] Instance phase_eq_dec : EqDecision phase.
Proof. solve_decision. Defined.

Record system := System {
  phase_of : string -> phase;
  pending : list string;    (* the pool's work queue, oldest first *)
  running : list string;    (* sessions whose render is on a worker *)
  arrivals : list string;   (* every submission so far, in order *)
  started : list string     (* every render started so far, in order *)
}.



Inductive event :=
  | Receive (sid : string)   (* a frame arrives, its handler starts *)
  | Abort (sid : string)     (* the handler ends before the render *)
  | Submit (sid : string)    (* [run_in_executor] queues the render *)
  | Start                    (* a free worker takes the oldest item *)
  | Finish (sid : string).   (* [_generate_sync] returns or raises *)

Definition fire (max_workers : nat) (σ : system) (e : event)
  : option system :=
  match e with
  | Receive sid =>
      if decide (phase_of σ sid = Idle) then
        Some (System (<[sid := Preparing]> (phase_of σ)) (pending σ)
                     (running σ) (arrivals σ) (started σ))
      else None
  | Abort sid =>
      if decide (phase_of σ sid = Preparing) then
        Some (System (<[sid := Idle]> (phase_of σ)) (pending σ)
                     (running σ) (arrivals σ) (started σ))
      else None
  | Submit sid =>
      if decide (phase_of σ sid = Preparing) then
        Some (System (<[sid := Queued]> (phase_of σ))
                     (pending σ ++ [sid])%list (running σ)
                     (arrivals σ ++ [sid])%list (started σ))
      else None
  | Start =>
      match pending σ with
      | sid :: rest =>
          if decide (length (running σ) < max_workers)%nat then
            Some (System (<[sid := Rendering]> (phase_of σ)) rest
                         (sid :: running σ) (arrivals σ)
                         (started σ ++ [sid])%list)
          else None
      | [] => None
      end
  | Finish sid =>
      if decide (sid ∈ running σ) then
        Some (System (<[sid := Idle]> (phase_of σ)) (pending σ)
                     (filter (λ x, x ≠ sid) (running σ)) (arrivals σ)
                     (started σ))
      else None
  end.

(** A schedule is a list of events, each enabled when its turn comes. *)
Fixpoint run (max_workers : nat) (σ : system) (schedule : list event)
  : option system :=
  match schedule with
  | [] => Some σ
  | e :: rest =>
      match fire max_workers σ e with
      | Some σ' => run max_workers σ' rest
      | None => None
      end
  end.


End Executor.

(** ** What a turn leaves behind *)

(** The frames a connection has received so far. *)
Definition sent_on (ws : nat) (s : server) : list frame :=
  match sockets s !! ws with
  | Some k => sent k
  | None => []
  end.

(** The peer is there and stays. *)
Definition socket_open (ws : nat) (s : server) : Prop :=
  ∃ out, sockets s !! ws = Some (Socket out None).

(** The history stored for a session. *)
Definition history_of (session_id : string) (s : server)
  : option (list message) :=
  conversation_history <$> active_sessions s !! session_id.

Definition no_error (F : list frame) : Prop :=
  Forall (λ f, is_error f = false) F.

Definition no_video_ready (F : list frame) : Prop :=
  Forall (λ f, is_video_ready f = false) F.

Definition no_response (F : list frame) : Prop :=
  Forall (λ f, is_response f = false) F.

(** The frames of a turn that ran to its end, after the optional
    transcription frames. *)
Definition success_frames (llm_response video_url : string) : list frame :=
  [ Status thinking "Generating response...";
    Response llm_response;
    Status synthesizing "Synthesizing speech...";
    Status generating_video "Generating avatar video...";
    VideoReady video_url "Avatar video ready!" ].

Definition transcription_frames (user_text : string) : list frame :=
  [ Status transcribing "Transcribing your speech...";
    Transcription user_text ].

(** A frame from the client that starts a turn. *)
Definition starts_turn (message : received) : Prop :=
  match message with
  | ReceiveBytes _ => True
  | ReceiveText (Some data) => data !! "type" = Some "text_input"
  | _ => False
  end.

(** A turn that ran to the end of its [try] suites: no exception was
    raised anywhere on the way. *)
Definition successful_turn (b : backend) (session_id : string) (ws : nat)
    (message : received) (s s' : server) : Prop :=
  match message with
  | ReceiveBytes audio_data =>
      ∃ user_text s1,
        transcribe_stage b audio_data ws s = (Ok user_text, s1)
        ∧ process_user_input_body b session_id user_text ws s1
          = (Ok tt, s')
  | ReceiveText (Some data) =>
      data !! "type" = Some "text_input"
      ∧ process_user_input_body b session_id (default "" (data !! "text"))
          ws s = (Ok tt, s')
  | _ => False
  end.

(** ** Relations a computation keeps between its start and end states *)

(** [m] moves every state to an [R]-related one, whether it returns or
    raises. *)
Definition preserves {A} (R : relation server) (m : M A) : Prop :=
  ∀ s, R s (m s).2.

Definition same_sessions : relation server :=
  λ s s', active_sessions s' = active_sessions s.

Definition same_sockets : relation server :=
  λ s s', sockets s' = sockets s.

(** Neither the registry nor any connection is written to. *)
Definition local_only : relation server :=
  λ s s', active_sessions s' = active_sessions s ∧ sockets s' = sockets s.

(** The same session ids are registered. *)
Definition same_registered : relation server :=
  λ s s', dom (active_sessions s') = dom (active_sessions s).

(** The connection got some more frames, all of them in [P], and an open
    connection stayed open. *)
Definition emits (ws : nat) (P : frame → Prop) : relation server :=
  λ s s',
    (∃ F, sent_on ws s' = (sent_on ws s ++ F)%list ∧ Forall P F)
    ∧ (socket_open ws s → socket_open ws s').

(** ** Concrete servers and back ends *)

Module Sample.

Definition audio : bytes := [Byte.x52; Byte.x49; Byte.x46; Byte.x46].

Definition all_well : backend := {|
  settings := default_settings;
  whisper := λ _, Ok "hello";
  chat_completion := λ _, Ok "Hi! How can I help?";
  speech := λ _, Ok [Byte.x49; Byte.x44; Byte.x33];
  load_pipeline := Ok tt;
  pipeline_generate := λ _ _ _ _ _, Ok [Byte.x00; Byte.x00];
  timestamp := "20250101_120000"
|}.

(** The render engine fails; everything else answers. *)
Definition render_fails : backend := {|
  settings := default_settings;
  whisper := λ _, Ok "hello";
  chat_completion := λ _, Ok "Hi! How can I help?";
  speech := λ _, Ok [Byte.x49; Byte.x44; Byte.x33];
  load_pipeline := Ok tt;
  pipeline_generate := λ _ _ _ _ _, Raise (Exn "RenderError");
  timestamp := "20250101_120000"
|}.

(** Speech synthesis fails. *)
Definition speech_fails : backend := {|
  settings := default_settings;
  whisper := λ _, Ok "hello";
  chat_completion := λ _, Ok "Hi! How can I help?";
  speech := λ _, Raise (Exn "SynthesisError");
  load_pipeline := Ok tt;
  pipeline_generate := λ _ _ _ _ _, Ok [Byte.x00; Byte.x00];
  timestamp := "20250101_120000"
|}.

(** After start-up, one client connected, nothing said yet. *)
Definition one_client : server := {|
  active_sessions := {[ "session_1" := Session [] 7 ]};
  stt_service := Some {| stt_model := "whisper-1" |};
  llm_service := Some {| system_prompt := "You are a friendly avatar." |};
  tts_service := Some {| tts_voice := "alloy" |};
  avatar_service := Some {| is_initialized := true |};
  files := ∅;
  tmp_counter := 0;
  sockets := {[ 7 := Socket [] None ]}
|}.

(** Before start-up: every service global is still [None]. *)
Definition cold : server := {|
  active_sessions := ∅;
  stt_service := None;
  llm_service := None;
  tts_service := None;
  avatar_service := None;
  files := ∅;
  tmp_counter := 0;
  sockets := ∅
|}.

End Sample.

(** ** Streaming replies of the language model *)

(** What the streaming chat request hands over, item by item: a piece of
    text (possibly absent or empty), or an error that ends the stream. *)
Inductive chat_stream :=
  | StreamEnd
  | StreamChunk (content : option string) (rest : chat_stream)
  | StreamError (e : exn).

(** The [async for] of [LLMService.generate_response_stream]
    (llm_service.py, lines 111-113 and the re-raise of 115-117): the
    chunks yielded, in order, and the exception that ended the generator,
    if any. *)
Fixpoint stream_chunks (st : chat_stream) : list string * option exn :=
  match st with
  | StreamEnd => ([], None)
  | StreamError e => ([], Some e)
  | StreamChunk content rest =>
      let '(yielded, ending) := stream_chunks rest in
      match content with
      | Some text =>
          if decide (text = "") then (yielded, ending)
          else (text :: yielded, ending)
      | None => (yielded, ending)
      end
  end.

(** [LLMService.generate_response_stream] (lines 80-117); [create] is the
    streaming request, a function of the messages as in
    [generate_response]. *)
Definition generate_response_stream
    (create : list message → result chat_stream) (self : LLMService)
    (user_message : string) (conversation_history : list message)
  : list string * option exn :=
  let messages : list message :=
    ([Message System (system_prompt self)] ++ conversation_history
       ++ [Message User user_message])%list in
  match create messages with
  | Ok st => stream_chunks st
  | Raise e => ([], Some e)
  end.

(** All the text a stream carried before it ended. *)
Fixpoint stream_text (st : chat_stream) : string :=
  match st with
  | StreamEnd | StreamError _ => ""
  | StreamChunk content rest => default "" content ++ stream_text rest
  end.

(** ** Further observations *)

(** No separator in a file name. *)
Fixpoint no_slash (name : string) : bool :=
  match name with
  | EmptyString => true
  | String c rest => negb (Ascii.eqb c "/"%char) && no_slash rest
  end.

(** The peer is gone: every send raises. *)
Definition socket_closed (ws : nat) (s : server) : Prop :=
  match sockets s !! ws with
  | Some (Socket _ (Some 0)) | None => True
  | _ => False
  end.

(** Every session but one is as it was. *)
Definition others_kept (session_id : string) : relation server :=
  λ s s', ∀ k, k ≠ session_id →
    active_sessions s' !! k = active_sessions s !! k.

(** Every connection but one is as it was. *)
Definition other_sockets_kept (ws : nat) : relation server :=
  λ s s', ∀ k, k ≠ ws → sockets s' !! k = sockets s !! k.

(** The stored history of a session is made of whole pairs and within
    the cap. *)
Definition history_sound (session_id : string) (s : server) : Prop :=
  ∃ h, history_of session_id s = Some h ∧ paired h ∧ length h ≤ 10.

Definition keeps_history_sound (session_id : string) : relation server :=
  λ s s', history_sound session_id s → history_sound session_id s'.

(** Only files and the temporary-name counter may differ. *)
Definition files_only : relation server :=
  λ s s',
    active_sessions s' = active_sessions s
    ∧ sockets s' = sockets s
    ∧ stt_service s' = stt_service s
    ∧ llm_service s' = llm_service s
    ∧ tts_service s' = tts_service s
    ∧ avatar_service s' = avatar_service s.

(** Everything but the connections is as it was. *)
Definition sockets_only : relation server :=
  λ s s',
    active_sessions s' = active_sessions s
    ∧ files s' = files s
    ∧ tmp_counter s' = tmp_counter s
    ∧ stt_service s' = stt_service s
    ∧ llm_service s' = llm_service s
    ∧ tts_service s' = tts_service s
    ∧ avatar_service s' = avatar_service s.

(** ** Failures of the back ends *)

(** A back end fails in the third block of a turn (lines 227-261), with
    exception [e]: speech synthesis, or on first use the loading of the
    pipeline, or the render itself, called on the speech file the turn
    has just made, with the prompt and image of the settings, one clip
    and the default seed. *)
Inductive delivery_failure (b : backend) (s : server)
    (llm_response : string) : exn → Prop :=
  | synthesis_fails tts e :
      tts_service s = Some tts →
      speech b llm_response = Raise e →
      delivery_failure b s llm_response e
  | loading_fails tts audio avatar e :
      tts_service s = Some tts →
      speech b llm_response = Ok audio →
      avatar_service s = Some avatar →
      is_initialized avatar = false →
      load_pipeline b = Raise e →
      delivery_failure b s llm_response e
  | rendering_fails tts audio avatar e :
      tts_service s = Some tts →
      speech b llm_response = Ok audio →
      avatar_service s = Some avatar →
      is_initialized avatar = true ∨ load_pipeline b = Ok tt →
      pipeline_generate b (default_avatar_prompt (settings b))
        (default_avatar_image (settings b))
        ("/tmp/tmp" ++ pretty (tmp_counter s) ++ ".mp3") 1 420 = Raise e →
      delivery_failure b s llm_response e.

(** A back end fails during [process_user_input] on a registered session:
    the language model, asked with the system prompt, the stored history
    and the user text, or one of the later back ends on its reply. *)
Inductive turn_failure (b : backend) (session_id user_text : string)
    (s : server) : exn → Prop :=
  | generation_fails ss llm e :
      active_sessions s !! session_id = Some ss →
      llm_service s = Some llm →
      chat_completion b
        ([Message System (system_prompt llm)] ++ conversation_history ss
           ++ [Message User user_text])%list = Raise e →
      turn_failure b session_id user_text s e
  | delivery_fails ss llm llm_response e :
      active_sessions s !! session_id = Some ss →
      llm_service s = Some llm →
      chat_completion b
        ([Message System (system_prompt llm)] ++ conversation_history ss
           ++ [Message User user_text])%list = Ok llm_response →
      delivery_failure b s llm_response e →
      turn_failure b session_id user_text s e.

(** A back end fails, with exception [e], in the turn a frame starts: for
    audio, Whisper itself, or a later back end once the transcription,
    which takes one temporary name, has given the user text. *)
Definition back_end_failure (b : backend) (session_id : string)
    (message : received) (s : server) (e : exn) : Prop :=
  match message with
  | ReceiveText (Some data) =>
      data !! "type" = Some "text_input"
      ∧ turn_failure b session_id (default "" (data !! "text")) s e
  | ReceiveBytes audio_data =>
      is_Some (stt_service s)
      ∧ (whisper b audio_data = Raise e
         ∨ ∃ user_text,
             whisper b audio_data = Ok user_text
             ∧ turn_failure b session_id user_text
                 (set_tmp_counter (S (tmp_counter s)) s) e)
  | _ => False
  end.

(** ** More concrete situations *)

Module Scenario.

(** The client of [Sample.one_client], but it takes four more frames and
    is gone. *)
Definition leaving_client : server := {|
  active_sessions := {[ "session_1" := Session [] 7 ]};
  stt_service := Some {| stt_model := "whisper-1" |};
  llm_service := Some {| system_prompt := "You are a friendly avatar." |};
  tts_service := Some {| tts_voice := "alloy" |};
  avatar_service := Some {| is_initialized := true |};
  files := ∅;
  tmp_counter := 0;
  sockets := {[ 7 := Socket [] (Some 4) ]}
|}.

(** One client connected; the avatar service exists but its pipeline is
    not loaded yet. *)
Definition not_loaded : server := {|
  active_sessions := {[ "session_1" := Session [] 7 ]};
  stt_service := Some {| stt_model := "whisper-1" |};
  llm_service := Some {| system_prompt := "You are a friendly avatar." |};
  tts_service := Some {| tts_voice := "alloy" |};
  avatar_service := Some {| is_initialized := false |};
  files := ∅;
  tmp_counter := 0;
  sockets := {[ 7 := Socket [] None ]}
|}.

(** The text frame [{"type": "text_input", "text": "hello"}]. *)
Definition hello : received :=
  ReceiveText (Some {[ "type" := "text_input"; "text" := "hello" ]}).


End Scenario.

(** * Properties *)

(** ** The conversation buffer *)

Section HistoryFacts.

Implicit Types (h : list message) (u a : string).

Lemma length_last_n n h : length (last_n n h) = Nat.min n (length h).
Proof. unfold last_n. rewrite length_drop. lia. Qed.

Lemma length_keep_last_10 h : length (keep_last_10 h) ≤ 10.
Proof.
  unfold keep_last_10. case_decide; [rewrite length_last_n|]; lia.
Qed.

Lemma keep_last_10_drop h : keep_last_10 h = drop (length h - 10) h.
Proof.
  unfold keep_last_10, last_n. case_decide as Hlen; [done|].
  by replace (length h - 10) with 0 by lia.
Qed.

Lemma length_commit h u a : length (commit h u a) ≤ 10.
Proof. apply length_keep_last_10. Qed.

Lemma commit_drop h u a :
  commit h u a
  = drop (length h + 2 - 10)
         (h ++ [Message User u; Message Assistant a])%list.
Proof.
  unfold commit, append. rewrite keep_last_10_drop, <- app_assoc.
  rewrite !length_app. simpl.
  by replace (length h + 1 + 1) with (length h + 2) by lia.
Qed.

Lemma length_commit_all h turns :
  length h ≤ 10 → length (commit_all h turns) ≤ 10.
Proof.
  revert h. induction turns as [|[u a] turns IH]; intros h Hh; [done|].
  simpl. apply IH, length_commit.
Qed.

(** Pairs survive an append of a pair at the end. *)
Lemma paired_app h1 h2 : paired h1 → paired h2 → paired (h1 ++ h2).
Proof.
  revert h1. fix IH 1. intros [|[[] c1] [|[[] c2] rest]]; simpl; try done.
  intros H1 H2. by apply IH.
Qed.

Lemma paired_even h : paired h → Nat.Even (length h).
Proof.
  revert h. fix IH 1. intros [|[[] c1] [|[[] c2] rest]]; simpl; try done.
  - intros _. by exists 0.
  - intros [k Hk]%IH. exists (S k). lia.
Qed.

(** Dropping an even number of entries from the front keeps pairs. *)
Lemma paired_drop_even k h : paired h → paired (drop (2 * k) h).
Proof.
  revert h. induction k as [|k IH]; intros h Hh; [by rewrite drop_0|].
  replace (2 * S k) with (S (S (2 * k))) by lia.
  destruct h as [|[[] c1] [|[[] c2] rest]]; simpl in *; try done.
  by apply IH.
Qed.

Lemma paired_commit h u a : paired h → paired (commit h u a).
Proof.
  intros Hh. rewrite commit_drop.
  destruct (paired_even h Hh) as [k Hk].
  assert (Hall : paired (h ++ [Message User u; Message Assistant a])).
  { by apply paired_app. }
  destruct (decide (length h + 2 ≤ 10)) as [Hle|Hgt].
  - replace (length h + 2 - 10) with 0 by lia. by rewrite drop_0.
  - replace (length h + 2 - 10) with (2 * (k - 4)) by lia.
    by apply paired_drop_even.
Qed.

End HistoryFacts.

(** ** Computations: sequencing and handlers *)

Section Sequencing.

Context {A B : Type}.
Implicit Types (m : M A) (k : A → M B).

Lemma bind_ok m k s y s' :
  bind m k s = (Ok y, s') →
  ∃ a s1, m s = (Ok a, s1) ∧ k a s1 = (Ok y, s').
Proof.
  unfold bind. destruct (m s) as [[a|e] s1]; [eauto|discriminate].
Qed.

Lemma bind_raise m k s e s' :
  bind m k s = (Raise e, s') →
  m s = (Raise e, s') ∨ ∃ a s1, m s = (Ok a, s1) ∧ k a s1 = (Raise e, s').
Proof.
  unfold bind. destruct (m s) as [[a|e0] s1]; [eauto|].
  intros [= -> ->]. by left.
Qed.

Lemma bind_step m k s a s1 : m s = (Ok a, s1) → bind m k s = k a s1.
Proof. unfold bind. by intros ->. Qed.

Lemma bind_stop m k s e s1 :
  m s = (Raise e, s1) → bind m k s = (Raise e, s1).
Proof. unfold bind. by intros ->. Qed.

End Sequencing.

Section Preserved.

Variable R : relation server.
Context `{!PreOrder R}.

Lemma preserves_ret {A} (a : A) : preserves R (ret a).
Proof. intros s. simpl. reflexivity. Qed.

Lemma preserves_raise {A} e : preserves R (raise (A := A) e).
Proof. intros s. simpl. reflexivity. Qed.

Lemma preserves_lift {A} (r : result A) : preserves R (lift r).
Proof. intros s. simpl. reflexivity. Qed.

Lemma preserves_get : preserves R get.
Proof. intros s. simpl. reflexivity. Qed.

Lemma preserves_bind {A B} (m : M A) (k : A → M B) :
  preserves R m → (∀ a, preserves R (k a)) → preserves R (bind m k).
Proof.
  intros Hm Hk s. unfold bind. specialize (Hm s).
  destruct (m s) as [[a|e] s1]; simpl in *; [|done].
  etrans; [exact Hm|]. apply Hk.
Qed.

Lemma preserves_try_except {A} (body : M A) handler :
  preserves R body → (∀ e, preserves R (handler e)) →
  preserves R (try_except body handler).
Proof.
  intros Hm Hk s. unfold try_except. specialize (Hm s).
  destruct (body s) as [[a|e] s1]; simpl in *; [done|].
  etrans; [exact Hm|]. apply Hk.
Qed.

(** The form in which the relation is used on a run. *)
Lemma preserves_run {A} (m : M A) s r s' :
  preserves R m → m s = (r, s') → R s s'.
Proof. intros Hm Hrun. specialize (Hm s). by rewrite Hrun in Hm. Qed.

End Preserved.

#[local] Instance same_sessions_preorder : PreOrder same_sessions.
Proof.
  split; [by intros s|]. intros s1 s2 s3 H12 H23.
  unfold same_sessions in *. congruence.
Qed.

#[local] Instance same_sockets_preorder : PreOrder same_sockets.
Proof.
  split; [by intros s|]. intros s1 s2 s3 H12 H23.
  unfold same_sockets in *. congruence.
Qed.

#[local] Instance emits_preorder ws P : PreOrder (emits ws P).
Proof.
  split.
  - intros s. split; [|done]. exists []. by rewrite app_nil_r.
  - intros s1 s2 s3 [(F1 & E1 & HF1) O1] [(F2 & E2 & HF2) O2]. split; [|tauto].
    exists (F1 ++ F2)%list. rewrite E2, E1, app_assoc. split; [done|].
    by apply Forall_app.
Qed.

#[local] Instance local_only_preorder : PreOrder local_only.
Proof.
  split; [by intros s|]. intros s1 s2 s3 [? ?] [? ?].
  unfold local_only in *. split; congruence.
Qed.

Lemma preserves_weaken {A} (R R' : relation server) (m : M A) :
  (∀ s s', R s s' → R' s s') → preserves R m → preserves R' m.
Proof. intros HR Hm s. apply HR, Hm. Qed.

Lemma local_only_same_sessions s s' : local_only s s' → same_sessions s s'.
Proof. by intros [? ?]. Qed.

Lemma local_only_same_sockets s s' : local_only s s' → same_sockets s s'.
Proof. by intros [? ?]. Qed.

Lemma same_sockets_sent_on ws s s' :
  same_sockets s s' → sent_on ws s' = sent_on ws s.
Proof. unfold same_sockets, sent_on. by intros ->. Qed.

Lemma same_sockets_emits ws P s s' : same_sockets s s' → emits ws P s s'.
Proof.
  intros Hs. split.
  - exists []. rewrite app_nil_r. split; [|done]. by apply same_sockets_sent_on.
  - unfold socket_open. by rewrite Hs.
Qed.

(** Sequencing steps shared by the preservation proofs below. *)
Ltac preserves_steps :=
  repeat first
    [ apply preserves_ret; solve [tc_solve]
    | apply preserves_raise; solve [tc_solve]
    | apply preserves_lift; solve [tc_solve]
    | apply preserves_get; solve [tc_solve]
    | apply preserves_bind; [tc_solve| |intros ?]
    | apply preserves_try_except; [tc_solve| |intros ?]
    | solve [eauto with turn]
    | case_match ].

Create HintDb turn discriminated.

(** *** Steps that stay off the registry and the connections *)

Lemma named_temporary_file_local suffix :
  preserves local_only (named_temporary_file suffix).
Proof. by intros s. Qed.

Lemma write_file_local path data : preserves local_only (write_file path data).
Proof. by intros s. Qed.

Lemma path_exists_local path : preserves local_only (path_exists path).
Proof. by intros s. Qed.

Lemma unlink_local path : preserves local_only (unlink path).
Proof. intros s. unfold unlink. by repeat case_match. Qed.

Lemma mkdir_exist_ok_local path : preserves local_only (mkdir_exist_ok path).
Proof. intros s. unfold mkdir_exist_ok. by repeat case_match. Qed.

Lemma lookup_session_local session_id :
  preserves local_only (lookup_session session_id).
Proof. intros s. unfold lookup_session. by case_match. Qed.

Lemma set_avatar_local a : preserves local_only (modify (set_avatar a)).
Proof. by intros s. Qed.

Lemma set_initialized_local self : preserves local_only (set_initialized self).
Proof. intros s. unfold set_initialized, modify. simpl. by case_decide. Qed.

Lemma save_video_local output_path video :
  preserves local_only (save_video output_path video).
Proof. intros s. unfold save_video. by case_decide. Qed.

#[local] Hint Resolve named_temporary_file_local write_file_local
  path_exists_local unlink_local mkdir_exist_ok_local lookup_session_local
  set_avatar_local set_initialized_local save_video_local : turn.

Lemma transcribe_local b audio_data :
  preserves local_only (transcribe b audio_data).
Proof. unfold transcribe. preserves_steps. Qed.

Lemma generate_response_local b self user_message history :
  preserves local_only (generate_response b self user_message history).
Proof. unfold generate_response. preserves_steps. Qed.

Lemma synthesize_local b text : preserves local_only (synthesize b text).
Proof. unfold synthesize. preserves_steps. Qed.

Lemma initialize_sync_local b self :
  preserves local_only (initialize_sync b self).
Proof. unfold initialize_sync. preserves_steps. Qed.

Lemma generate_sync_local b audio_path prompt reference_image n seed :
  preserves local_only
    (generate_sync b audio_path prompt reference_image n seed).
Proof. unfold generate_sync. preserves_steps. Qed.

#[local] Hint Resolve initialize_sync_local generate_sync_local : turn.

Lemma generate_avatar_video_local b self audio_path prompt image n seed :
  preserves local_only
    (generate_avatar_video b self audio_path prompt image n seed).
Proof. unfold generate_avatar_video. preserves_steps. Qed.

(** *** Sending a frame *)

Lemma send_json_same_sessions ws f : preserves same_sessions (send_json ws f).
Proof. intros s. unfold send_json. by repeat case_match. Qed.

Lemma send_json_emits ws (P : frame → Prop) f :
  P f → preserves (emits ws P) (send_json ws f).
Proof.
  intros HP s. unfold send_json, emits, sent_on, socket_open.
  destruct (sockets s !! ws) as [[out [[|n]|]]|] eqn:E; simpl;
    rewrite ?lookup_insert_eq, ?E; simpl.
  - split; [|done]. exists []. by rewrite app_nil_r.
  - split; [|by intros [? [=]]]. exists [f]. by repeat constructor.
  - split; [|by eauto]. exists [f]. by repeat constructor.
  - split; [|done]. by exists [].
Qed.

Lemma send_json_ok ws f s x s' :
  send_json ws f s = (Ok x, s') →
  sent_on ws s' = (sent_on ws s ++ [f])%list.
Proof.
  unfold send_json, sent_on.
  destruct (sockets s !! ws) as [[out [[|n]|]]|] eqn:E; intros [= <- <-];
    simpl; by rewrite lookup_insert_eq.
Qed.

Lemma send_json_open ws f s :
  socket_open ws s →
  ∃ s', send_json ws f s = (Ok tt, s') ∧ socket_open ws s'.
Proof.
  intros [out E]. unfold send_json. rewrite E. eexists. split; [done|].
  eexists. simpl. by rewrite lookup_insert_eq.
Qed.

(** Once a send has raised, the next one raises too: the state is the
    same and the peer is still gone. *)
Lemma send_json_raise ws f s e s' :
  send_json ws f s = (Raise e, s') →
  s' = s ∧ ∀ g, ∃ e', send_json ws g s = (Raise e', s).
Proof.
  unfold send_json.
  destruct (sockets s !! ws) as [[out [[|n]|]]|] eqn:E; intros [= <- <-];
    (split; [done|]); intros g; eauto.
Qed.

(** *** The history update *)

Lemma history_append_same_sockets session_id x :
  preserves same_sockets (history_append session_id x).
Proof. by intros s. Qed.

Lemma history_cap_same_sockets session_id :
  preserves same_sockets (history_cap session_id).
Proof. by intros s. Qed.

#[local] Hint Resolve history_append_same_sockets history_cap_same_sockets
  : turn.

Lemma commit_stage_same_sockets session_id u r :
  preserves same_sockets (commit_stage session_id u r).
Proof. unfold commit_stage. preserves_steps. Qed.

Lemma commit_stage_returns session_id u r s :
  (commit_stage session_id u r s).1 = Ok tt.
Proof. done. Qed.

Lemma commit_stage_history session_id u r s :
  history_of session_id (commit_stage session_id u r s).2
  = (λ h, commit h u r) <$> history_of session_id s.
Proof.
  unfold history_of, commit_stage, history_append, history_cap. simpl.
  rewrite !lookup_alter_eq.
  by destruct (active_sessions s !! session_id) as [[h k]|].
Qed.

Lemma commit_stage_dom session_id u r s :
  dom (active_sessions (commit_stage session_id u r s).2)
  = dom (active_sessions s).
Proof.
  unfold commit_stage, history_append, history_cap. simpl.
  by rewrite !dom_alter_L.
Qed.

(** *** Reading the relations off a run *)

Lemma local_run_sent_on {A} (m : M A) ws s r s' :
  preserves local_only m → m s = (r, s') → sent_on ws s' = sent_on ws s.
Proof.
  intros Hm Hrun. eapply same_sockets_sent_on, local_only_same_sockets.
  by eapply preserves_run.
Qed.

Lemma same_sessions_history session_id s s' :
  same_sessions s s' → history_of session_id s' = history_of session_id s.
Proof. unfold same_sessions, history_of. by intros ->. Qed.

Lemma local_same_sessions {A} (m : M A) :
  preserves local_only m → preserves same_sessions m.
Proof. apply preserves_weaken, local_only_same_sessions. Qed.

Lemma local_emits {A} (m : M A) ws P :
  preserves local_only m → preserves (emits ws P) m.
Proof.
  apply preserves_weaken. intros s s' H.
  by apply same_sockets_emits, local_only_same_sockets.
Qed.

Lemma same_sockets_preserves_emits {A} (m : M A) ws P :
  preserves same_sockets m → preserves (emits ws P) m.
Proof. apply preserves_weaken, same_sockets_emits. Qed.

#[local] Hint Resolve transcribe_local generate_response_local
  synthesize_local generate_avatar_video_local : turn.
#[local] Hint Resolve send_json_same_sessions : turn.
#[local] Hint Extern 2 (preserves same_sessions _) =>
  apply local_same_sessions : turn.
#[local] Hint Extern 2 (preserves (emits _ _) _) =>
  apply local_emits : turn.
#[local] Hint Extern 1 (preserves (emits _ _) (send_json _ _)) =>
  apply send_json_emits; reflexivity : turn.

(** *** The stages of a turn *)

Section Stages.

Variables (b : backend) (session_id : string) (ws : nat).

Lemma generate_stage_same_sessions u :
  preserves same_sessions (generate_stage b session_id u ws).
Proof. unfold generate_stage. preserves_steps. Qed.

Lemma deliver_stage_same_sessions r :
  preserves same_sessions (deliver_stage b r ws).
Proof. unfold deliver_stage. preserves_steps. Qed.

Lemma transcribe_stage_same_sessions audio_data :
  preserves same_sessions (transcribe_stage b audio_data ws).
Proof. unfold transcribe_stage. preserves_steps. Qed.

Lemma generate_stage_no_error u :
  preserves (emits ws (λ f, is_error f = false))
    (generate_stage b session_id u ws).
Proof. unfold generate_stage. preserves_steps. Qed.

Lemma deliver_stage_no_error r :
  preserves (emits ws (λ f, is_error f = false)) (deliver_stage b r ws).
Proof. unfold deliver_stage. preserves_steps. Qed.

Lemma deliver_stage_no_response r :
  preserves (emits ws (λ f, is_response f = false)) (deliver_stage b r ws).
Proof. unfold deliver_stage. preserves_steps. Qed.

Lemma transcribe_stage_no_error audio_data :
  preserves (emits ws (λ f, is_error f = false))
    (transcribe_stage b audio_data ws).
Proof. unfold transcribe_stage. preserves_steps. Qed.

Lemma commit_stage_emits P u r :
  preserves (emits ws P) (commit_stage session_id u r).
Proof.
  apply same_sockets_preserves_emits, commit_stage_same_sockets.
Qed.

End Stages.

(** *** Frames of the stages, exactly *)

(** A step that stays off the connections leaves [sent_on] as it was. *)
Ltac sent_on_local H :=
  match type of H with
  | ?m ?s = _ =>
      let E := fresh "E" in
      assert (E : preserves local_only m) by preserves_steps;
      rewrite (local_run_sent_on m _ _ _ _ E H); clear E
  end.

Section StageFrames.

Variables (b : backend) (session_id : string) (ws : nat).

Lemma generate_stage_ok u s r s1 :
  generate_stage b session_id u ws s = (Ok r, s1) →
  sent_on ws s1
  = (sent_on ws s
       ++ [Status thinking "Generating response..."; Response r])%list.
Proof.
  unfold generate_stage. intros H.
  apply bind_ok in H as (ss & sa & Ha & H).
  apply bind_ok in H as ([] & sb & Hb & H).
  apply bind_ok in H as (sc & ? & [= <- <-] & H).
  apply bind_ok in H as (r' & sd & Hd & H).
  apply bind_ok in H as ([] & se & He & [= <- <-]).
  rewrite (send_json_ok _ _ _ _ _ He).
  sent_on_local Hd.
  rewrite (send_json_ok _ _ _ _ _ Hb).
  sent_on_local Ha.
  by rewrite <- app_assoc.
Qed.

(** When the first block raises, no reply frame has gone out. *)
Lemma generate_stage_raise u s e s1 :
  generate_stage b session_id u ws s = (Raise e, s1) →
  ∃ F, sent_on ws s1 = (sent_on ws s ++ F)%list ∧ no_response F.
Proof.
  unfold generate_stage. intros H.
  apply bind_raise in H as [Ha|(ss & sa & Ha & H)].
  { exists []. rewrite app_nil_r. split; [|constructor].
    by sent_on_local Ha. }
  assert (Ea : sent_on ws sa = sent_on ws s) by (by sent_on_local Ha).
  apply bind_raise in H as [Hb|([] & sb & Hb & H)].
  { apply send_json_raise in Hb as [-> _]. exists [].
    rewrite app_nil_r. split; [done|constructor]. }
  pose proof (send_json_ok _ _ _ _ _ Hb) as Eb.
  apply bind_raise in H as [[=]|(sc & ? & [= <- <-] & H)].
  apply bind_raise in H as [Hd|(r' & sd & Hd & H)].
  { exists [Status thinking "Generating response..."].
    sent_on_local Hd.
    rewrite Eb, Ea. split; [done|]. by repeat constructor. }
  assert (Ed : sent_on ws sd = sent_on ws sb) by (by sent_on_local Hd).
  apply bind_raise in H as [He|([] & se & He & [=])].
  apply send_json_raise in He as [-> _].
  exists [Status thinking "Generating response..."].
  rewrite Ed, Eb, Ea. split; [done|]. by repeat constructor.
Qed.

Lemma deliver_stage_ok r s s1 :
  deliver_stage b r ws s = (Ok tt, s1) →
  ∃ video_url,
    sent_on ws s1
    = (sent_on ws s
         ++ [Status synthesizing "Synthesizing speech...";
             Status generating_video "Generating avatar video...";
             VideoReady video_url "Avatar video ready!"])%list.
Proof.
  unfold deliver_stage. intros H.
  apply bind_ok in H as ([] & sa & Ha & H).
  apply bind_ok in H as (sb & ? & [= <- <-] & H).
  apply bind_ok in H as (audio_path & sc & Hc & H).
  apply bind_ok in H as ([] & sd & Hd & H).
  apply bind_ok in H as (se & ? & [= <- <-] & H).
  apply bind_ok in H as (video_path & sf & Hf & H).
  apply bind_ok in H as ([] & sg & Hg & H).
  apply bind_ok in H as (present & sh & Hh & H).
  exists ("/video/" ++ path_name video_path).
  sent_on_local H.
  sent_on_local Hh.
  rewrite (send_json_ok _ _ _ _ _ Hg).
  sent_on_local Hf.
  rewrite (send_json_ok _ _ _ _ _ Hd).
  sent_on_local Hc.
  rewrite (send_json_ok _ _ _ _ _ Ha).
  by rewrite <- !app_assoc.
Qed.

Lemma transcribe_stage_ok audio_data s user_text s1 :
  transcribe_stage b audio_data ws s = (Ok user_text, s1) →
  sent_on ws s1 = (sent_on ws s ++ transcription_frames user_text)%list.
Proof.
  unfold transcribe_stage. intros H.
  apply bind_ok in H as ([] & sa & Ha & H).
  apply bind_ok in H as (sb & ? & [= <- <-] & H).
  apply bind_ok in H as (t & sc & Hc & H).
  apply bind_ok in H as ([] & sd & Hd & [= <- <-]).
  rewrite (send_json_ok _ _ _ _ _ Hd).
  sent_on_local Hc.
  rewrite (send_json_ok _ _ _ _ _ Ha).
  by rewrite <- app_assoc.
Qed.

Lemma process_user_input_body_ok u s s' :
  process_user_input_body b session_id u ws s = (Ok tt, s') →
  ∃ r video_url,
    sent_on ws s' = (sent_on ws s ++ success_frames r video_url)%list.
Proof.
  unfold process_user_input_body. intros H.
  apply bind_ok in H as (r & sa & Ha & H).
  apply bind_ok in H as ([] & sb & Hb & H).
  apply deliver_stage_ok in H as [video_url H].
  exists r, video_url. rewrite H.
  rewrite (same_sockets_sent_on ws sa sb).
  { rewrite (generate_stage_ok _ _ _ _ Ha). by rewrite <- app_assoc. }
  eapply (preserves_run same_sockets);
    [apply commit_stage_same_sockets|exact Hb].
Qed.

End StageFrames.

(** *** A whole turn *)

#[local] Instance same_registered_preorder : PreOrder same_registered.
Proof.
  split; [by intros s|]. intros s1 s2 s3 H12 H23.
  unfold same_registered in *. congruence.
Qed.

Lemma same_sessions_registered {A} (m : M A) :
  preserves same_sessions m → preserves same_registered m.
Proof.
  apply preserves_weaken. unfold same_sessions, same_registered.
  by intros s s' ->.
Qed.

Section Turn.

Variables (b : backend) (session_id : string) (ws : nat).

Lemma body_after_generate u s r s1 :
  generate_stage b session_id u ws s = (Ok r, s1) →
  process_user_input_body b session_id u ws s
  = deliver_stage b r ws (commit_stage session_id u r s1).2.
Proof.
  intros Hg. unfold process_user_input_body.
  by rewrite (bind_step _ _ _ _ _ Hg).
Qed.

Lemma body_generate_raise u s e s1 :
  generate_stage b session_id u ws s = (Raise e, s1) →
  process_user_input_body b session_id u ws s = (Raise e, s1).
Proof. apply bind_stop. Qed.

Lemma process_user_input_body_no_error u :
  preserves (emits ws (λ f, is_error f = false))
    (process_user_input_body b session_id u ws).
Proof.
  unfold process_user_input_body.
  apply preserves_bind; [tc_solve|apply generate_stage_no_error|intros r].
  apply preserves_bind; [tc_solve|apply commit_stage_emits|intros _].
  apply deliver_stage_no_error.
Qed.

Lemma process_user_input_body_registered u :
  preserves same_registered (process_user_input_body b session_id u ws).
Proof.
  unfold process_user_input_body.
  apply preserves_bind; [tc_solve| |intros r].
  { apply same_sessions_registered, generate_stage_same_sessions. }
  apply preserves_bind; [tc_solve| |intros _].
  { intros s. apply commit_stage_dom. }
  apply same_sessions_registered, deliver_stage_same_sessions.
Qed.

Lemma process_user_input_registered u :
  preserves same_registered (process_user_input b session_id u ws).
Proof.
  unfold process_user_input.
  apply preserves_try_except; [tc_solve| |intros e].
  - apply process_user_input_body_registered.
  - apply same_sessions_registered, send_json_same_sessions.
Qed.

(** On a connection that stays, [process_user_input] returns; its frames
    hold one error frame, the last, when the suite raised, none when it
    ran through. *)
Lemma process_user_input_open u s :
  socket_open ws s →
  ∃ s' F,
    process_user_input b session_id u ws s = (Ok tt, s')
    ∧ socket_open ws s'
    ∧ sent_on ws s' = (sent_on ws s ++ F)%list
    ∧ ((process_user_input_body b session_id u ws s = (Ok tt, s')
        ∧ no_error F)
       ∨ (∃ e s1 F0,
            process_user_input_body b session_id u ws s = (Raise e, s1)
            ∧ F = (F0 ++ [Error ("Processing failed: " ++ exn_str e)])%list
            ∧ no_error F0)).
Proof.
  intros Hopen. unfold process_user_input, try_except.
  pose proof (process_user_input_body_no_error u s) as [(F0 & EF & HF) Ho].
  destruct (process_user_input_body b session_id u ws s)
    as [[[]|e] s1] eqn:Hbody; simpl in *.
  - exists s1, F0. eauto 10.
  - destruct (send_json_open ws
      (Error ("Processing failed: " ++ exn_str e)) s1 (Ho Hopen))
      as (s2 & Hsend & Ho2).
    exists s2, (F0 ++ [Error ("Processing failed: " ++ exn_str e)])%list.
    rewrite Hsend. repeat split; [done| |].
    + by rewrite (send_json_ok _ _ _ _ _ Hsend), EF, app_assoc.
    + right. by exists e, s1, F0.
Qed.

End Turn.

(** ** Order of the frames of a successful turn *)

(** C4.  A turn that runs to its end sends, in this order:
    status(transcribing) and transcription (audio turns only), then
    status(thinking), response, status(synthesizing),
    status(generating_video), video_ready -- and nothing else. *)
Theorem successful_turn_frame_order :
  ∀ (b : backend) (session_id : string) (ws : nat) (message : received)
    (s s' : server),
    successful_turn b session_id ws message s s' →
    dispatch b session_id ws message s = (Ok tt, s')
    ∧ ∃ prefix llm_response video_url,
        sent_on ws s'
        = (sent_on ws s ++ prefix
             ++ success_frames llm_response video_url)%list
        ∧ match message with
          | ReceiveBytes _ => ∃ user_text, prefix = transcription_frames user_text
          | _ => prefix = []
          end.
Proof.
  intros b session_id ws [[data|]|audio_data|] s s' Hturn;
    simpl in Hturn; try done.
  - destruct Hturn as [Htype Hbody]. split.
    + unfold dispatch, handle_message. rewrite decide_True by done.
      unfold process_user_input, try_except. by rewrite Hbody.
    + apply process_user_input_body_ok in Hbody as (r & url & E).
      by exists [], r, url.
  - destruct Hturn as (t & s1 & Ht & Hbody). split.
    + unfold dispatch, handle_audio, try_except.
      rewrite (bind_step _ _ _ _ _ Ht).
      unfold process_user_input, try_except. by rewrite Hbody.
    + apply process_user_input_body_ok in Hbody as (r & url & E).
      exists (transcription_frames t), r, url. split; [|by exists t].
      by rewrite E, (transcribe_stage_ok _ _ _ _ _ _ Ht), <- app_assoc.
Qed.

Lemma successful_turn_frame_order_witness :
  let s' :=
    (dispatch Sample.all_well "session_1" 7 (ReceiveBytes Sample.audio)
       Sample.one_client).2 in
  successful_turn Sample.all_well "session_1" 7 (ReceiveBytes Sample.audio)
    Sample.one_client s'
  ∧ dispatch Sample.all_well "session_1" 7 (ReceiveBytes Sample.audio)
      Sample.one_client = (Ok tt, s')
  ∧ ∃ prefix llm_response video_url,
      sent_on 7 s'
      = (sent_on 7 Sample.one_client ++ prefix
           ++ success_frames llm_response video_url)%list
      ∧ ∃ user_text, prefix = transcription_frames user_text.
Proof.
  intros s'.
  assert (Hturn : successful_turn Sample.all_well "session_1" 7
                    (ReceiveBytes Sample.audio) Sample.one_client s').
  { eexists _, _. split; vm_compute; reflexivity. }
  split; [exact Hturn|].
  exact (successful_turn_frame_order _ _ _ _ _ _ Hturn).
Defined.

(** ** When the history is written *)

(** C1, as stated, fails: the render engine raises, the turn ends with an
    error frame and never delivers, and the history has the turn's pair
    all the same. *)
Lemma history_written_before_render_failure :
  let s' :=
    (process_user_input Sample.render_fails "session_1" "hello" 7
       Sample.one_client).2 in
  sent_on 7 s'
  = [ Status thinking "Generating response...";
      Response "Hi! How can I help?";
      Status synthesizing "Synthesizing speech...";
      Status generating_video "Generating avatar video...";
      Error "Processing failed: RenderError" ]
  ∧ history_of "session_1" Sample.one_client = Some []
  ∧ history_of "session_1" s'
    = Some [ Message User "hello";
             Message Assistant "Hi! How can I help?" ]
  ∧ history_of "session_1" s' ≠ history_of "session_1" Sample.one_client.
Proof. vm_compute. by repeat split. Qed.

(** C1, amended.  The history of the session receives the turn's
    [user, assistant] pair exactly when the reply frame of the turn was
    sent, that is when generation succeeded and the turn went on to
    synthesis; it is unchanged when the turn ended before that.  Failures
    of synthesis or rendering come after the write and do not undo it.
    Either way the history is made of whole pairs if it was before. *)
Theorem history_committed_with_reply :
  ∀ (b : backend) (session_id u : string) (ws : nat) (s : server)
    (h : list message) (res : result unit) (s' : server),
    history_of session_id s = Some h →
    process_user_input b session_id u ws s = (res, s') →
    ∃ F h',
      sent_on ws s' = (sent_on ws s ++ F)%list
      ∧ history_of session_id s' = Some h'
      ∧ ((∃ r, Response r ∈ F ∧ h' = commit h u r)
         ∨ (no_response F ∧ h' = h))
      ∧ (paired h → paired h').
Proof.
  intros b session_id u ws s h res s' Hh.
  unfold process_user_input.
  set (handler := λ e : exn,
         send_json ws (Error ("Processing failed: " ++ exn_str e))).
  assert (Hhandler_e : ∀ e,
            preserves (emits ws (λ f, is_response f = false)) (handler e)).
  { intros e. by apply send_json_emits. }
  assert (Hhandler_s : ∀ e, preserves same_sessions (handler e)).
  { intros e. apply send_json_same_sessions. }
  destruct (generate_stage b session_id u ws s) as [[r|e] s1] eqn:Hg.
  - pose proof (generate_stage_ok _ _ _ _ _ _ _ Hg) as E1.
    pose proof (preserves_run same_sessions _ _ _ _
                  (generate_stage_same_sessions b session_id ws u) Hg) as S1.
    set (s2 := (commit_stage session_id u r s1).2).
    assert (H2 : history_of session_id s2 = Some (commit h u r)).
    { unfold s2. rewrite commit_stage_history.
      by rewrite (same_sessions_history _ _ _ S1), Hh. }
    assert (E2 : sent_on ws s2 = sent_on ws s1).
    { apply same_sockets_sent_on, commit_stage_same_sockets. }
    assert (Hrun : try_except (process_user_input_body b session_id u ws)
                     handler s
                   = try_except (deliver_stage b r ws) handler s2).
    { unfold try_except. by rewrite (body_after_generate _ _ _ _ _ _ _ Hg). }
    rewrite Hrun. intros Hrest.
    destruct (preserves_run (emits ws (λ f, is_response f = false))
                _ _ _ _
                (preserves_try_except _ _ _
                   (deliver_stage_no_response b ws r) Hhandler_e) Hrest)
      as [(F3 & E3 & HF3) _].
    pose proof (preserves_run same_sessions _ _ _ _
                  (preserves_try_except _ _ _
                     (deliver_stage_same_sessions b ws r) Hhandler_s) Hrest)
      as S3.
    exists ([Status thinking "Generating response..."; Response r] ++ F3)%list,
           (commit h u r).
    repeat split.
    + by rewrite E3, E2, E1, <- app_assoc.
    + by rewrite (same_sessions_history _ _ _ S3).
    + left. exists r. split; [|done]. set_solver.
    + apply paired_commit.
  - destruct (generate_stage_raise _ _ _ _ _ _ _ Hg) as (F1 & E1 & HF1).
    pose proof (preserves_run same_sessions _ _ _ _
                  (generate_stage_same_sessions b session_id ws u) Hg) as S1.
    unfold try_except at 1.
    rewrite (body_generate_raise _ _ _ _ _ _ _ Hg). intros Hrest.
    destruct (preserves_run _ _ _ _ _ (Hhandler_e e) Hrest)
      as [(F2 & E2 & HF2) _].
    pose proof (preserves_run _ _ _ _ _ (Hhandler_s e) Hrest) as S2.
    exists (F1 ++ F2)%list, h. repeat split.
    + by rewrite E2, E1, <- app_assoc.
    + rewrite (same_sessions_history _ _ _ S2).
      by rewrite (same_sessions_history _ _ _ S1).
    + right. split; [|done]. by apply Forall_app.
    + done.
Qed.

Lemma history_committed_with_reply_witness :
  let run :=
    process_user_input Sample.speech_fails "session_1" "hello" 7
      Sample.one_client in
  history_of "session_1" Sample.one_client = Some []
  ∧ run = (run.1, run.2)
  ∧ ∃ F h',
      sent_on 7 run.2 = (sent_on 7 Sample.one_client ++ F)%list
      ∧ history_of "session_1" run.2 = Some h'
      ∧ ((∃ r, Response r ∈ F ∧ h' = commit [] "hello" r)
         ∨ (no_response F ∧ h' = []))
      ∧ (paired [] → paired h').
Proof.
  intros run.
  assert (H1 : history_of "session_1" Sample.one_client = Some [])
    by reflexivity.
  assert (H2 : run = (run.1, run.2)) by reflexivity.
  split; [exact H1|]. split; [exact H2|].
  exact (history_committed_with_reply Sample.speech_fails "session_1"
           "hello" 7 Sample.one_client [] run.1 run.2 H1 H2).
Defined.

(** ** The speech file *)

(** C6 fails on the code: the removal (lines 259-261) sits at the end of
    the [try] suite, so a render that raises skips it.  With the render
    engine failing, the turn reaches the rendering stage and the speech
    file is still there when the turn is over; with the engine answering,
    the file is gone. *)
Theorem speech_file_left_after_render_failure :
  let failed :=
    (process_user_input Sample.render_fails "session_1" "hello" 7
       Sample.one_client).2 in
  let delivered :=
    (process_user_input Sample.all_well "session_1" "hello" 7
       Sample.one_client).2 in
  Status generating_video "Generating avatar video..." ∈ sent_on 7 failed
  ∧ files failed !! "/tmp/tmp0.mp3"
    = Some (RegularFile [Byte.x49; Byte.x44; Byte.x33])
  ∧ files delivered !! "/tmp/tmp0.mp3" = None.
Proof. vm_compute. repeat split. set_solver. Qed.

(** ** Renders across sessions *)

Section ExecutorFacts.

Import Executor.

Variable max_workers : nat.





End ExecutorFacts.




(** ** The cap on the history *)

(** C3.  The history update of a turn (lines 218-225) stores
    [commit h u a] for the stored history [h]; that list never has more
    than 10 entries; it is the list [h ++ [user; assistant]] with its
    oldest entries dropped from the front, the rest in the same order;
    and a session, which starts from the empty history, stays within 10
    entries through any run of committed turns. *)
Theorem history_never_exceeds_10 :
  ∀ (session_id u a : string) (s : server) (h : list message)
    (turns : list (string * string)),
    history_of session_id (commit_stage session_id u a s).2
    = (λ h, commit h u a) <$> history_of session_id s
    ∧ length (commit h u a) ≤ 10
    ∧ commit h u a
      = drop (length h + 2 - 10)
             (h ++ [Message User u; Message Assistant a])%list
    ∧ length (commit_all [] turns) ≤ 10.
Proof.
  intros session_id u a s h turns. split; [apply commit_stage_history|].
  split; [apply length_commit|]. split; [apply commit_drop|].
  apply length_commit_all. simpl. lia.
Qed.

(** ** Removing a session *)

Lemma remove_is_delete session_id (d : gmap string session) :
  Registry.remove session_id d = Ok (delete session_id d).
Proof.
  unfold Registry.remove, Registry.py_in, Registry.py_del.
  destruct (d !! session_id) as [x|] eqn:E.
  - by rewrite bool_decide_eq_true_2 by eauto.
  - rewrite bool_decide_eq_false_2 by (by intros [? [=]]).
    by rewrite delete_id.
Qed.

Lemma cleanup_session_run session_id s :
  cleanup_session session_id s
  = (Ok tt, set_sessions (λ _, delete session_id (active_sessions s)) s).
Proof. unfold cleanup_session. by rewrite remove_is_delete. Qed.

(** However the connection ends, [websocket_endpoint] returns and the
    session is out of the registry. *)
Lemma websocket_endpoint_unregisters b session_id ws inbound s :
  ∃ s',
    websocket_endpoint b session_id ws inbound s = (Ok tt, s')
    ∧ active_sessions s' !! session_id = None.
Proof.
  unfold websocket_endpoint, bind at 1, modify, try_finally, try_except.
  set (s0 := set_sessions (Registry.create session_id ws) s).
  destruct (bind _ _ s0) as [[[]|e] s1]; simpl;
    rewrite cleanup_session_run; eexists; (split; [done|]);
    simpl; apply lookup_delete_eq.
Qed.

(** C7.  The removal of the [finally] block never raises and leaves the
    registry without the id; on a registry that does not hold the id it
    returns the registry as it is; a second removal returns what the
    first one did, at the level of the dictionary and of the server. *)
Theorem remove_session_idempotent :
  ∀ (session_id : string) (d : gmap string session) (s : server),
    Registry.remove session_id d = Ok (delete session_id d)
    ∧ match d !! session_id with
      | None => Registry.remove session_id d = Ok d
      | Some _ => True
      end
    ∧ Registry.remove session_id (delete session_id d)
      = Ok (delete session_id d)
    ∧ cleanup_session session_id (cleanup_session session_id s).2
      = (Ok tt, (cleanup_session session_id s).2).
Proof.
  intros session_id d s. split; [apply remove_is_delete|]. split; [|split].
  - destruct (d !! session_id) eqn:E; [done|].
    rewrite remove_is_delete. by rewrite delete_id.
  - rewrite remove_is_delete. by rewrite delete_delete_eq.
  - rewrite !cleanup_session_run. unfold set_sessions. simpl.
    by rewrite delete_delete_eq.
Qed.

(** ** Serving a video *)




(** ** Defaults of the avatar call *)

(** C9.  An empty string for the prompt or for the reference image is
    replaced by the default of the settings, as a missing argument is:
    the call behaves as the call without that argument, and on an
    initialised service it is [_generate_sync] on the two defaults. *)
Theorem empty_argument_uses_default :
  ∀ (b : backend) (self : AvatarService) (audio_path : string)
    (prompt reference_image : option string) (num_clips : nat) (seed : Z)
    (s : server),
    py_or (Some "") (default_avatar_prompt (settings b))
    = default_avatar_prompt (settings b)
    ∧ py_or (Some "") (default_avatar_image (settings b))
      = default_avatar_image (settings b)
    ∧ generate_avatar_video b self audio_path (Some "") reference_image
        num_clips seed s
      = generate_avatar_video b self audio_path None reference_image
          num_clips seed s
    ∧ generate_avatar_video b self audio_path prompt (Some "")
        num_clips seed s
      = generate_avatar_video b self audio_path prompt None
          num_clips seed s
    ∧ generate_avatar_video b {| is_initialized := true |} audio_path
        (Some "") (Some "") num_clips seed s
      = generate_sync b audio_path (default_avatar_prompt (settings b))
          (default_avatar_image (settings b)) num_clips seed s.
Proof. intros. by repeat split. Qed.

(** ** Health *)

(** C10.  The status field of the health answer is always ["healthy"];
    each of the flags of the three remote services is up exactly when
    its global is set; the avatar flag is up exactly when the service
    object exists and its initialisation flag is set.  Before start-up
    the answer is healthy with every flag down; on a started server it
    is healthy with every flag up. *)
Theorem health_always_healthy :
  ∀ s : server,
    health_status (health_check s) = "healthy"
    ∧ (stt (services (health_check s)) = true ↔ is_Some (stt_service s))
    ∧ (llm (services (health_check s)) = true ↔ is_Some (llm_service s))
    ∧ (tts (services (health_check s)) = true ↔ is_Some (tts_service s))
    ∧ (avatar (services (health_check s)) = true
       ↔ ∃ a, avatar_service s = Some a ∧ is_initialized a = true)
    ∧ health_check Sample.cold
      = {| health_status := "healthy";
           services := {| stt := false; llm := false; tts := false;
                          avatar := false |} |}
    ∧ health_check Sample.one_client
      = {| health_status := "healthy";
           services := {| stt := true; llm := true; tts := true;
                          avatar := true |} |}.
Proof.
  intros s.
  assert (Hflag : ∀ A (x : option A), is_not_none x = true ↔ is_Some x).
  { intros A [a|]; simpl.
    - split; [by eauto|done].
    - split; [done|by intros [? [=]]]. }
  split; [done|]. repeat (split; [apply Hflag|]).
  split; [|done]. simpl. split.
  - destruct (avatar_service s) as [a|]; [eauto|done].
  - by intros (a & -> & Ha).
Qed.


(** * Further properties of the handlers and services *)

(** ** Relations kept by every handler *)

Lemma preserves_try_finally {A} (R : relation server) `{!PreOrder R}
    (body : M A) (cleanup : M unit) :
  preserves R body → preserves R cleanup →
  preserves R (try_finally body cleanup).
Proof.
  intros Hb Hc s. unfold try_finally. specialize (Hb s).
  destruct (body s) as [r s1]. specialize (Hc s1).
  destruct (cleanup s1) as [[[]|e] s2]; simpl in *; by etrans.
Qed.

Section HandlersPreserve.

Variables (R : relation server) (b : backend) (session_id : string)
  (ws : nat).
Context `{!PreOrder R}.

(** What is asked of [R]: steps that stay off the registry and the
    connections keep it, and so do a send on [ws] and the history update
    of [session_id]. *)
Hypothesis R_local : ∀ A (m : M A), preserves local_only m → preserves R m.
Hypothesis R_send : ∀ f, preserves R (send_json ws f).
Hypothesis R_commit : ∀ u r, preserves R (commit_stage session_id u r).

Ltac handler_steps :=
  repeat first
    [ apply preserves_ret; solve [tc_solve]
    | apply preserves_raise; solve [tc_solve]
    | apply preserves_get; solve [tc_solve]
    | apply preserves_bind; [tc_solve| |intros ?]
    | apply preserves_try_except; [tc_solve| |intros ?]
    | apply R_send
    | apply R_commit
    | apply R_local; solve [preserves_steps] ].

Lemma generate_stage_preserves u :
  preserves R (generate_stage b session_id u ws).
Proof. unfold generate_stage. handler_steps. Qed.

Lemma deliver_stage_preserves r : preserves R (deliver_stage b r ws).
Proof. unfold deliver_stage. handler_steps. Qed.

Lemma transcribe_stage_preserves audio_data :
  preserves R (transcribe_stage b audio_data ws).
Proof. unfold transcribe_stage. handler_steps. Qed.

Lemma process_user_input_preserves u :
  preserves R (process_user_input b session_id u ws).
Proof.
  unfold process_user_input, process_user_input_body.
  apply preserves_try_except; [tc_solve| |intros e; apply R_send].
  apply preserves_bind; [tc_solve|apply generate_stage_preserves|intros r].
  apply preserves_bind; [tc_solve|apply R_commit|intros _].
  apply deliver_stage_preserves.
Qed.

Lemma handle_audio_preserves audio_data :
  preserves R (handle_audio b session_id audio_data ws).
Proof.
  unfold handle_audio.
  apply preserves_try_except; [tc_solve| |intros e; apply R_send].
  apply preserves_bind; [tc_solve| |intros t].
  - apply transcribe_stage_preserves.
  - apply process_user_input_preserves.
Qed.

Lemma handle_message_preserves data :
  preserves R (handle_message b session_id data ws).
Proof.
  unfold handle_message. repeat case_decide.
  - apply process_user_input_preserves.
  - apply R_send.
  - by apply preserves_ret.
Qed.

Lemma dispatch_preserves message :
  preserves R (dispatch b session_id ws message).
Proof.
  destruct message as [[data|]|audio_data|]; simpl.
  - apply handle_message_preserves.
  - by apply preserves_raise.
  - apply handle_audio_preserves.
  - by apply preserves_ret.
Qed.

Lemma receive_loop_preserves inbound :
  preserves R (receive_loop b session_id ws inbound).
Proof.
  induction inbound as [|message rest IH]; simpl.
  - by apply preserves_raise.
  - destruct message as [[data|]|audio_data|].
    + apply preserves_bind; [tc_solve| |by intros _].
      apply (dispatch_preserves (ReceiveText (Some data))).
    + apply preserves_bind; [tc_solve| |by intros _].
      apply (dispatch_preserves (ReceiveText None)).
    + apply preserves_bind; [tc_solve| |by intros _].
      apply (dispatch_preserves (ReceiveBytes audio_data)).
    + apply preserves_bind; [tc_solve| |intros _; by apply preserves_raise].
      apply (dispatch_preserves ReceiveDisconnect).
Qed.

End HandlersPreserve.

#[local] Instance others_kept_preorder session_id :
  PreOrder (others_kept session_id).
Proof.
  split; [by intros s k ?|]. intros s1 s2 s3 H12 H23 k Hk.
  by rewrite H23, H12.
Qed.

#[local] Instance other_sockets_kept_preorder ws :
  PreOrder (other_sockets_kept ws).
Proof.
  split; [by intros s k ?|]. intros s1 s2 s3 H12 H23 k Hk.
  by rewrite H23, H12.
Qed.

#[local] Instance keeps_history_sound_preorder session_id :
  PreOrder (keeps_history_sound session_id).
Proof.
  split; [by intros s ?|]. intros s1 s2 s3 H12 H23 H1. by apply H23, H12.
Qed.

(** *** Other sessions *)

Lemma others_kept_local session_id {A} (m : M A) :
  preserves local_only m → preserves (others_kept session_id) m.
Proof.
  apply preserves_weaken. intros s s' [Hs _] k _. by rewrite Hs.
Qed.

Lemma others_kept_send session_id ws f :
  preserves (others_kept session_id) (send_json ws f).
Proof.
  intros s k _. by rewrite (send_json_same_sessions ws f s).
Qed.

Lemma others_kept_commit session_id u r :
  preserves (others_kept session_id) (commit_stage session_id u r).
Proof.
  intros s k Hk. unfold commit_stage, history_append, history_cap. simpl.
  by rewrite !lookup_alter_ne.
Qed.

Lemma websocket_endpoint_others_kept b session_id ws inbound :
  preserves (others_kept session_id)
    (websocket_endpoint b session_id ws inbound).
Proof.
  unfold websocket_endpoint.
  apply preserves_bind; [tc_solve| |intros _].
  { intros s k Hk. simpl. unfold Registry.create.
    by rewrite lookup_insert_ne. }
  apply preserves_try_finally; [tc_solve| |].
  - apply preserves_try_except; [tc_solve| |intros _; apply preserves_ret; tc_solve].
    apply preserves_bind; [tc_solve|apply others_kept_send|intros _].
    apply receive_loop_preserves; try tc_solve.
    + intros A m. apply others_kept_local.
    + apply others_kept_send.
    + apply others_kept_commit.
  - intros s k Hk. rewrite cleanup_session_run. simpl.
    by rewrite lookup_delete_ne.
Qed.

(** X1.  A connection, from its acceptance to its clean-up and whatever
    its frames and failures, leaves the registry entry of every other
    session as it was. *)
Theorem endpoint_leaves_other_sessions :
  ∀ (b : backend) (session_id : string) (ws : nat)
    (inbound : list received) (s : server) (k : string),
    k ≠ session_id →
    active_sessions (websocket_endpoint b session_id ws inbound s).2 !! k
    = active_sessions s !! k.
Proof.
  intros b session_id ws inbound s k Hk.
  by apply (websocket_endpoint_others_kept b session_id ws inbound s).
Qed.

Lemma endpoint_leaves_other_sessions_witness :
  "session_1" ≠ "session_2"
  ∧ active_sessions
      (websocket_endpoint Sample.all_well "session_2" 7
         [ReceiveBytes Sample.audio] Sample.one_client).2 !! "session_1"
    = active_sessions Sample.one_client !! "session_1".
Proof.
  assert (H : "session_1" ≠ "session_2") by (intros E; discriminate E).
  split; [exact H|].
  exact (endpoint_leaves_other_sessions Sample.all_well "session_2" 7
           [ReceiveBytes Sample.audio] Sample.one_client "session_1" H).
Defined.

(** *** Other connections *)

Lemma other_sockets_kept_local ws {A} (m : M A) :
  preserves local_only m → preserves (other_sockets_kept ws) m.
Proof.
  apply preserves_weaken. intros s s' [_ Hs] k _. by rewrite Hs.
Qed.

Lemma other_sockets_kept_send ws f :
  preserves (other_sockets_kept ws) (send_json ws f).
Proof.
  intros s k Hk. unfold send_json.
  destruct (sockets s !! ws) as [[out [[|n]|]]|]; simpl; try done;
    by rewrite lookup_insert_ne.
Qed.

Lemma other_sockets_kept_commit ws session_id u r :
  preserves (other_sockets_kept ws) (commit_stage session_id u r).
Proof. by intros s k Hk. Qed.

Lemma websocket_endpoint_other_sockets b session_id ws inbound :
  preserves (other_sockets_kept ws)
    (websocket_endpoint b session_id ws inbound).
Proof.
  unfold websocket_endpoint.
  apply preserves_bind; [tc_solve|by intros s k Hk|intros _].
  apply preserves_try_finally; [tc_solve| |].
  - apply preserves_try_except; [tc_solve| |intros _; apply preserves_ret; tc_solve].
    apply preserves_bind; [tc_solve|apply other_sockets_kept_send|intros _].
    apply receive_loop_preserves; try tc_solve.
    + intros A m. apply other_sockets_kept_local.
    + apply other_sockets_kept_send.
    + apply other_sockets_kept_commit.
  - intros s k Hk. by rewrite cleanup_session_run.
Qed.

(** X2.  A connection writes to its own socket only: what any other
    connection has received, and its state, are as they were. *)
Theorem endpoint_writes_own_socket_only :
  ∀ (b : backend) (session_id : string) (ws : nat)
    (inbound : list received) (s : server) (k : nat),
    k ≠ ws →
    sockets (websocket_endpoint b session_id ws inbound s).2 !! k
    = sockets s !! k.
Proof.
  intros b session_id ws inbound s k Hk.
  by apply (websocket_endpoint_other_sockets b session_id ws inbound s).
Qed.

Lemma endpoint_writes_own_socket_only_witness :
  7 ≠ 8
  ∧ sockets
      (websocket_endpoint Sample.all_well "session_2" 8
         [ReceiveBytes Sample.audio] Sample.one_client).2 !! 7
    = sockets Sample.one_client !! 7.
Proof.
  assert (H : 7 ≠ 8) by lia.
  split; [exact H|].
  exact (endpoint_writes_own_socket_only Sample.all_well "session_2" 8
           [ReceiveBytes Sample.audio] Sample.one_client 7 H).
Defined.

(** *** The history through a whole connection *)

Lemma keeps_history_sound_same_sessions session_id {A} (m : M A) :
  preserves same_sessions m → preserves (keeps_history_sound session_id) m.
Proof.
  apply preserves_weaken. intros s s' Hs (h & Hh & Hp & Hl).
  exists h. by rewrite (same_sessions_history _ _ _ Hs).
Qed.

Lemma keeps_history_sound_commit session_id u r :
  preserves (keeps_history_sound session_id) (commit_stage session_id u r).
Proof.
  intros s (h & Hh & Hp & Hl). exists (commit h u r).
  rewrite commit_stage_history, Hh. split; [done|].
  split; [by apply paired_commit|apply length_commit].
Qed.

(** X3.  From the moment a session is created (lines 102-105) and
    through every frame the client sends, whatever the back ends answer,
    the stored history is made of whole [user, assistant] pairs and has
    at most 10 entries. *)
Theorem history_sound_through_connection :
  ∀ (b : backend) (session_id : string) (ws : nat)
    (inbound : list received) (s : server),
    history_sound session_id
      (receive_loop b session_id ws inbound
         (set_sessions (Registry.create session_id ws) s)).2.
Proof.
  intros b session_id ws inbound s.
  apply (receive_loop_preserves (keeps_history_sound session_id)
           b session_id ws).
  - intros A m Hm.
    by apply keeps_history_sound_same_sessions, local_same_sessions.
  - intros f.
    apply keeps_history_sound_same_sessions, send_json_same_sessions.
  - apply keeps_history_sound_commit.
  - exists []. unfold history_of, Registry.create. simpl.
    rewrite lookup_insert_eq. simpl. repeat split. lia.
Qed.

(** *** The first frame *)

(** X4.  On a connection that stays, the first frame the client receives
    is the connection frame carrying the session id; everything else
    comes after it. *)
Theorem connection_frame_comes_first :
  ∀ (b : backend) (session_id : string) (ws : nat)
    (inbound : list received) (s : server),
    socket_open ws s →
    ∃ F,
      sent_on ws (websocket_endpoint b session_id ws inbound s).2
      = (sent_on ws s
           ++ Connection session_id "Connected to Interactive Avatar"
              :: F)%list.
Proof.
  intros b session_id ws inbound s Hopen.
  set (s0 := set_sessions (Registry.create session_id ws) s).
  destruct (send_json_open ws
              (Connection session_id "Connected to Interactive Avatar")
              s0 Hopen) as (s1 & Hsend & _).
  pose proof (send_json_ok _ _ _ _ _ Hsend) as E1.
  assert (Hloop : preserves (emits ws (λ _, True))
                    (receive_loop b session_id ws inbound)).
  { apply receive_loop_preserves; try tc_solve.
    - intros A m. apply local_emits.
    - intros f. by apply send_json_emits.
    - intros u r. apply commit_stage_emits. }
  destruct (Hloop s1) as [(F & EF & _) _].
  exists F.
  unfold websocket_endpoint, bind at 1, modify, try_finally, try_except.
  fold s0. rewrite (bind_step _ _ _ _ _ Hsend).
  destruct (receive_loop b session_id ws inbound s1) as [[[]|e] s2];
    simpl in *; rewrite cleanup_session_run; simpl;
    change (sent_on ws s2 =
            (sent_on ws s
               ++ Connection session_id "Connected to Interactive Avatar"
                  :: F)%list);
    rewrite EF, E1; by rewrite <- app_assoc.
Qed.

Lemma connection_frame_comes_first_witness :
  socket_open 7 Sample.one_client
  ∧ ∃ F,
      sent_on 7
        (websocket_endpoint Sample.render_fails "session_2" 7
           [ReceiveBytes Sample.audio] Sample.one_client).2
      = (sent_on 7 Sample.one_client
           ++ Connection "session_2" "Connected to Interactive Avatar"
              :: F)%list.
Proof.
  assert (H : socket_open 7 Sample.one_client).
  { exists []. reflexivity. }
  split; [exact H|].
  exact (connection_frame_comes_first Sample.render_fails "session_2" 7
           [ReceiveBytes Sample.audio] Sample.one_client H).
Defined.

(** ** Turns that cannot run *)

Lemma send_json_closed ws f s :
  socket_closed ws s → send_json ws f s = (Raise (Exn "WebSocketDisconnect"), s).
Proof.
  unfold socket_closed, send_json.
  by destruct (sockets s !! ws) as [[out [[|n]|]]|].
Qed.

Lemma send_json_open_run ws f s out :
  sockets s !! ws = Some (Socket out None) →
  send_json ws f s
  = (Ok tt, set_sockets <[ws := Socket (out ++ [f]) None]> s).
Proof. unfold send_json. by intros ->. Qed.

#[local] Instance sockets_only_preorder : PreOrder sockets_only.
Proof.
  split; [by intros s|].
  intros s1 s2 s3 (?&?&?&?&?&?&?) (?&?&?&?&?&?&?).
  unfold sockets_only. repeat split; congruence.
Qed.

Lemma send_json_sockets_only ws f : preserves sockets_only (send_json ws f).
Proof.
  intros s. unfold send_json.
  by destruct (sockets s !! ws) as [[out [[|n]|]]|].
Qed.

(** X5.  Once the peer is gone, a frame that starts a turn has no effect
    at all: no back end is called, no file is made, the history is as it
    was, and the exception leaves the handler for the endpoint. *)
Theorem closed_connection_turn_does_nothing :
  ∀ (b : backend) (session_id : string) (ws : nat) (message : received)
    (s : server),
    socket_closed ws s →
    starts_turn message →
    dispatch b session_id ws message s
    = (Raise (Exn "WebSocketDisconnect"), s).
Proof.
  intros b session_id ws [[data|]|audio_data|] s Hclosed Hturn;
    simpl in Hturn; try done; simpl.
  - unfold handle_message. rewrite decide_True by done.
    unfold process_user_input, try_except, process_user_input_body,
      generate_stage, bind, lookup_session.
    destruct (active_sessions s !! session_id);
      by rewrite !(send_json_closed _ _ _ Hclosed).
  - unfold handle_audio, try_except, transcribe_stage, bind.
    by rewrite !(send_json_closed _ _ _ Hclosed).
Qed.

Lemma closed_connection_turn_does_nothing_witness :
  socket_closed 9 Sample.one_client
  ∧ starts_turn (ReceiveBytes Sample.audio)
  ∧ dispatch Sample.all_well "session_1" 9 (ReceiveBytes Sample.audio)
      Sample.one_client
    = (Raise (Exn "WebSocketDisconnect"), Sample.one_client).
Proof.
  assert (H1 : socket_closed 9 Sample.one_client) by exact I.
  assert (H2 : starts_turn (ReceiveBytes Sample.audio)) by exact I.
  split; [exact H1|]. split; [exact H2|].
  exact (closed_connection_turn_does_nothing Sample.all_well "session_1" 9
           (ReceiveBytes Sample.audio) Sample.one_client H1 H2).
Defined.

(** X6.  A turn for a session id that is not in the registry (the lookup
    of line 195 raises [KeyError]) sends one error frame, whose text is
    the prefix of line 269 and the text of the key error, the [repr] of
    the id, and does nothing else: no back end is called and nothing but
    the connection changes. *)
Theorem unknown_session_one_error_frame :
  ∀ (b : backend) (session_id u : string) (ws : nat) (s : server),
    active_sessions s !! session_id = None →
    socket_open ws s →
    ∃ s',
      process_user_input b session_id u ws s = (Ok tt, s')
      ∧ sent_on ws s'
        = (sent_on ws s
             ++ [Error ("Processing failed: " ++ py_repr session_id)])%list
      ∧ sockets_only s s'.
Proof.
  intros b session_id u ws s Hnone [out Hout].
  assert (Hrun : process_user_input b session_id u ws s
                 = send_json ws
                     (Error ("Processing failed: " ++ py_repr session_id)) s).
  { unfold process_user_input, try_except, process_user_input_body,
      generate_stage, bind, lookup_session. by rewrite Hnone. }
  rewrite Hrun, (send_json_open_run _ _ _ _ Hout).
  eexists. split; [done|]. split.
  - unfold sent_on. simpl. by rewrite lookup_insert_eq, Hout.
  - done.
Qed.

Lemma unknown_session_one_error_frame_witness :
  active_sessions Sample.one_client !! "session_9" = None
  ∧ socket_open 7 Sample.one_client
  ∧ py_repr "session_9" = "'session_9'"
  ∧ ∃ s',
      process_user_input Sample.all_well "session_9" "hello" 7
        Sample.one_client = (Ok tt, s')
      ∧ sent_on 7 s'
        = (sent_on 7 Sample.one_client
             ++ [Error ("Processing failed: " ++ py_repr "session_9")])%list
      ∧ sockets_only Sample.one_client s'.
Proof.
  assert (H1 : active_sessions Sample.one_client !! "session_9" = None)
    by reflexivity.
  assert (H2 : socket_open 7 Sample.one_client).
  { exists []. reflexivity. }
  split; [exact H1|]. split; [exact H2|]. split; [reflexivity|].
  exact (unknown_session_one_error_frame Sample.all_well "session_9" "hello"
           7 Sample.one_client H1 H2).
Defined.

(** X7.  Before the language-model service is set (the global is still
    [None]), a turn on a registered session sends the thinking status and
    then one error frame with the attribute error; the history and
    everything else but the connection stay as they were. *)
Theorem missing_llm_service_error_frame :
  ∀ (b : backend) (session_id u : string) (ws : nat) (s : server),
    llm_service s = None →
    is_Some (active_sessions s !! session_id) →
    socket_open ws s →
    ∃ s',
      process_user_input b session_id u ws s = (Ok tt, s')
      ∧ sent_on ws s'
        = (sent_on ws s
             ++ [ Status thinking "Generating response...";
                  Error ("Processing failed: "
                         ++ exn_str (attribute_error "generate_response"))
                ])%list
      ∧ sockets_only s s'.
Proof.
  intros b session_id u ws s Hllm [ss Hss] [out Hout].
  set (f1 := Status thinking "Generating response...").
  set (f2 := Error ("Processing failed: "
                    ++ exn_str (attribute_error "generate_response"))).
  set (s1 := set_sockets <[ws := Socket (out ++ [f1]) None]> s).
  assert (Hout1 : sockets s1 !! ws = Some (Socket (out ++ [f1]) None)).
  { unfold s1. simpl. by rewrite lookup_insert_eq. }
  assert (Hrun : process_user_input b session_id u ws s = send_json ws f2 s1).
  { unfold process_user_input, try_except, process_user_input_body,
      generate_stage, bind, lookup_session. rewrite Hss.
    rewrite (send_json_open_run _ _ _ _ Hout). fold f1 s1. simpl.
    by rewrite Hllm. }
  rewrite Hrun, (send_json_open_run _ _ _ _ Hout1).
  eexists. split; [done|]. split.
  - unfold sent_on. simpl. rewrite lookup_insert_eq, Hout. simpl.
    by rewrite <- app_assoc.
  - done.
Qed.

Lemma missing_llm_service_error_frame_witness :
  let s :=
    {| active_sessions := {[ "session_1" := Session [] 7 ]};
       stt_service := None; llm_service := None; tts_service := None;
       avatar_service := None; files := ∅; tmp_counter := 0;
       sockets := {[ 7 := Socket [] None ]} |} in
  llm_service s = None
  ∧ is_Some (active_sessions s !! "session_1")
  ∧ socket_open 7 s
  ∧ ∃ s',
      process_user_input Sample.all_well "session_1" "hello" 7 s = (Ok tt, s')
      ∧ sent_on 7 s'
        = (sent_on 7 s
             ++ [ Status thinking "Generating response...";
                  Error ("Processing failed: "
                         ++ exn_str (attribute_error "generate_response"))
                ])%list
      ∧ sockets_only s s'.
Proof.
  intros s.
  assert (H1 : llm_service s = None) by reflexivity.
  assert (H2 : is_Some (active_sessions s !! "session_1")).
  { exists (Session [] 7). reflexivity. }
  assert (H3 : socket_open 7 s).
  { exists []. reflexivity. }
  split; [exact H1|]. split; [exact H2|]. split; [exact H3|].
  exact (missing_llm_service_error_frame Sample.all_well "session_1" "hello"
           7 s H1 H2 H3).
Defined.

(** ** The services and their temporary files *)

(** X8.  [transcribe] works on a temporary copy of the audio.  When
    Whisper answers, the text is returned and the copy is gone: the files
    are as they were.  When Whisper fails, the same exception is raised
    and the copy, holding the audio, is left behind. *)
Theorem transcribe_temp_file :
  ∀ (b : backend) (audio_data : bytes) (s : server),
    files s !! ("/tmp/tmp" ++ pretty (tmp_counter s) ++ ".wav") = None →
    match whisper b audio_data with
    | Ok text =>
        transcribe b audio_data s
        = (Ok text, set_tmp_counter (S (tmp_counter s)) s)
    | Raise e =>
        transcribe b audio_data s
        = (Raise e,
           set_tmp_counter (S (tmp_counter s))
             (set_files
                <["/tmp/tmp" ++ pretty (tmp_counter s) ++ ".wav"
                  := RegularFile audio_data]> s))
    end.
Proof.
  intros b audio_data s Hfresh.
  unfold transcribe, bind, named_temporary_file, write_file, modify, lift,
    unlink, ret.
  destruct (whisper b audio_data) as [text|e]; simpl.
  - rewrite lookup_insert_eq. unfold set_files, set_tmp_counter. simpl.
    by rewrite delete_insert_eq, delete_insert_id.
  - unfold set_files, set_tmp_counter. simpl. by rewrite insert_insert_eq.
Qed.

Lemma transcribe_temp_file_witness :
  files Sample.one_client
    !! ("/tmp/tmp" ++ pretty (tmp_counter Sample.one_client) ++ ".wav")
  = None
  ∧ match whisper Sample.all_well Sample.audio with
    | Ok text =>
        transcribe Sample.all_well Sample.audio Sample.one_client
        = (Ok text,
           set_tmp_counter (S (tmp_counter Sample.one_client))
             Sample.one_client)
    | Raise e =>
        transcribe Sample.all_well Sample.audio Sample.one_client
        = (Raise e,
           set_tmp_counter (S (tmp_counter Sample.one_client))
             (set_files
                <["/tmp/tmp" ++ pretty (tmp_counter Sample.one_client)
                  ++ ".wav" := RegularFile Sample.audio]>
                Sample.one_client))
    end.
Proof.
  assert (H : files Sample.one_client
                !! ("/tmp/tmp" ++ pretty (tmp_counter Sample.one_client)
                    ++ ".wav") = None) by reflexivity.
  split; [exact H|].
  exact (transcribe_temp_file Sample.all_well Sample.audio
           Sample.one_client H).
Defined.

(** X9.  [synthesize] makes its temporary file before it calls the speech
    service: on success the returned path holds the audio; on failure the
    exception is raised and an empty file is left at that path. *)
Theorem synthesize_temp_file :
  ∀ (b : backend) (text : string) (s : server),
    match speech b text with
    | Ok audio =>
        synthesize b text s
        = (Ok ("/tmp/tmp" ++ pretty (tmp_counter s) ++ ".mp3"),
           set_tmp_counter (S (tmp_counter s))
             (set_files
                <["/tmp/tmp" ++ pretty (tmp_counter s) ++ ".mp3"
                  := RegularFile audio]> s))
    | Raise e =>
        synthesize b text s
        = (Raise e,
           set_tmp_counter (S (tmp_counter s))
             (set_files
                <["/tmp/tmp" ++ pretty (tmp_counter s) ++ ".mp3"
                  := RegularFile []]> s))
    end.
Proof.
  intros b text s.
  unfold synthesize, bind, named_temporary_file, write_file, modify, lift,
    ret.
  destruct (speech b text) as [audio|e]; simpl; [|done].
  unfold set_files, set_tmp_counter. simpl. by rewrite insert_insert_eq.
Qed.

(** ** Streaming replies *)

Lemma stream_chunks_text st :
  Forall (λ chunk, chunk ≠ "") (stream_chunks st).1
  ∧ foldr String.append "" (stream_chunks st).1 = stream_text st.
Proof.
  induction st as [|content rest [IHne IHtext]|e]; simpl; [done| |done].
  destruct (stream_chunks rest) as [yielded ending]. simpl in *.
  destruct content as [text|]; simpl; [|done].
  case_decide as Htext; simpl.
  - subst text. done.
  - split; [by constructor|]. by rewrite IHtext.
Qed.

(** X11.  [generate_response_stream] never yields an empty chunk and
    loses no text: the chunks it yields, put together, are all the text
    the stream carried before it ended; when the request itself fails it
    yields nothing and raises that error. *)
Theorem stream_yields_all_text :
  ∀ (create : list message → result chat_stream) (self : LLMService)
    (user_message : string) (conversation_history : list message),
    let run :=
      generate_response_stream create self user_message
        conversation_history in
    Forall (λ chunk, chunk ≠ "") run.1
    ∧ match create ([Message System (system_prompt self)]
                      ++ conversation_history
                      ++ [Message User user_message])%list with
      | Ok st => foldr String.append "" run.1 = stream_text st
      | Raise e => run = ([], Some e)
      end.
Proof.
  intros create self user_message conversation_history run.
  unfold run, generate_response_stream.
  destruct (create _) as [st|e]; simpl; [|done].
  apply stream_chunks_text.
Qed.

(** ** File names and the video route *)

Lemma string_append_cons (x : ascii) (a b : string) :
  (String x a ++ b)%string = String x (a ++ b).
Proof. reflexivity. Qed.

Lemma string_append_assoc (a b c : string) :
  ((a ++ b) ++ c)%string = (a ++ (b ++ c))%string.
Proof.
  induction a as [|x a IH]; [done|].
  by rewrite !string_append_cons, IH.
Qed.

Lemma string_append_nil_r (a : string) : (a ++ "")%string = a.
Proof.
  induction a as [|x a IH]; [done|]. by rewrite string_append_cons, IH.
Qed.

Lemma no_slash_append (a b : string) :
  no_slash (a ++ b) = no_slash a && no_slash b.
Proof.
  induction a as [|x a IH]; [done|].
  rewrite string_append_cons. simpl. rewrite IH.
  by destruct (Ascii.eqb x "/").
Qed.

Lemma path_name_from_no_slash last cur name :
  no_slash name = true →
  path_name_from last cur name
  = if real_component (cur ++ name) then (cur ++ name)%string else last.
Proof.
  revert cur. induction name as [|c name IH]; intros cur Hname; simpl.
  - by rewrite string_append_nil_r.
  - simpl in Hname. apply andb_true_iff in Hname as [Hc Hname].
    apply negb_true_iff in Hc. rewrite Hc, IH by done.
    by rewrite string_append_assoc.
Qed.

Lemma path_name_from_join last cur d name :
  no_slash name = true → name ≠ "" → name ≠ "." →
  path_name_from last cur (d ++ "/" ++ name) = name.
Proof.
  intros Hname Hempty Hdot. revert last cur.
  induction d as [|c d IH]; intros last cur.
  - change (path_name_from (if real_component cur then cur else last) ""
              name = name).
    rewrite path_name_from_no_slash by done.
    change ("" ++ name)%string with name.
    unfold real_component.
    destruct (String.eqb_spec name ""); [done|].
    by destruct (String.eqb_spec name ".").
  - rewrite string_append_cons. simpl.
    destruct (Ascii.eqb c "/"); apply IH.
Qed.

Lemma path_name_of_join_aux directory name :
  no_slash name = true → name ≠ "" → name ≠ "." →
  path_name (path_join directory name) = name.
Proof.
  intros Hname Hempty Hdot. unfold path_name, path_join.
  by apply path_name_from_join.
Qed.

(** *** From the result frame to the video route *)

Lemma synthesize_ok_path b text s audio_path s' :
  synthesize b text s = (Ok audio_path, s') →
  audio_path = "/tmp/tmp" ++ pretty (tmp_counter s) ++ ".mp3".
Proof.
  unfold synthesize. intros H.
  apply bind_ok in H as (p & sa & [= <- <-] & H).
  apply bind_ok in H as (audio & sb & _ & H).
  by apply bind_ok in H as ([] & sc & _ & [= <- _]).
Qed.

Lemma generate_avatar_video_ok b self audio_path prompt image n seed s
    video_path s' :
  generate_avatar_video b self audio_path prompt image n seed s
  = (Ok video_path, s') →
  video_path = path_join output_dir ("avatar_" ++ timestamp b ++ ".mp4")
  ∧ String.length (path_name video_path) ≤ NAME_MAX
  ∧ ∃ video, files s' !! video_path = Some (RegularFile video).
Proof.
  unfold generate_avatar_video, generate_sync. intros H.
  apply bind_ok in H as ([] & sa & _ & H).
  apply bind_ok in H as (video & sb & _ & H).
  apply bind_ok in H as ([] & sc & _ & H).
  apply bind_ok in H as ([] & sd & _ & H).
  apply bind_ok in H as ([] & se & Hsave & [= <- <-]).
  unfold save_video in Hsave. case_decide as Hlen; [discriminate|].
  injection Hsave as <-.
  split; [done|]. split; [lia|].
  exists video. simpl. by rewrite lookup_insert_eq.
Qed.

Lemma deliver_stage_ok_video b r ws s s1 :
  deliver_stage b r ws s = (Ok tt, s1) →
  let video_path :=
    path_join output_dir ("avatar_" ++ timestamp b ++ ".mp4") in
  VideoReady ("/video/" ++ path_name video_path) "Avatar video ready!"
    ∈ sent_on ws s1
  ∧ String.length (path_name video_path) ≤ NAME_MAX
  ∧ ∃ video, files s1 !! video_path = Some (RegularFile video).
Proof.
  intros H video_path.
  destruct (deliver_stage_ok _ _ _ _ _ H) as [url Eurl].
  unfold deliver_stage in H.
  apply bind_ok in H as ([] & sa & Ha & H).
  apply bind_ok in H as (sb & ? & [= <- <-] & H).
  apply bind_ok in H as (audio_path & sc & Hc & H).
  apply bind_ok in H as ([] & sd & Hd & H).
  apply bind_ok in H as (se & ? & [= <- <-] & H).
  apply bind_ok in H as (p & sf & Hf & H).
  apply bind_ok in H as ([] & sg & Hg & H).
  apply bind_ok in H as (present & sh & [= <- <-] & H).
  destruct (tts_service sa) as [tts|]; [|discriminate].
  apply synthesize_ok_path in Hc as ->.
  destruct (avatar_service sd) as [avatar|]; [|discriminate].
  apply generate_avatar_video_ok in Hf as (-> & Hlen & video & Hvideo).
  fold video_path in Hvideo, Hg, Hlen.
  destruct (preserves_run sockets_only _ _ _ _
              (send_json_sockets_only _ _) Hg) as (_ & Hfiles & _).
  assert (Hsent : VideoReady ("/video/" ++ path_name video_path)
                    "Avatar video ready!" ∈ sent_on ws sg).
  { rewrite (send_json_ok _ _ _ _ _ Hg). set_solver. }
  assert (Hs1 : sent_on ws s1 = sent_on ws sg) by (by sent_on_local H).
  split; [by rewrite Hs1|]. split; [done|]. exists video.
  destruct (bool_decide _) in H.
  - unfold unlink in H. destruct (files sg !! _) as [[data|]|];
      try discriminate. injection H as <-. simpl.
    rewrite lookup_delete_ne; [by rewrite Hfiles|].
    unfold video_path, path_join, output_dir. discriminate.
  - injection H as <-. by rewrite Hfiles.
Qed.

(** X13.  The URL of a result frame can be fetched: after a turn that ran
    to its end, the frame [video_ready] carries [/video/<name>], and
    [serve_video] on that name answers with the stored file, not with
    404.  The name is [avatar_<timestamp>.mp4]; the timestamp format has
    no separator. *)
Theorem video_ready_url_is_served :
  ∀ (b : backend) (session_id u : string) (ws : nat) (s s' : server),
    no_slash (timestamp b) = true →
    process_user_input_body b session_id u ws s = (Ok tt, s') →
    VideoReady ("/video/" ++ "avatar_" ++ timestamp b ++ ".mp4")
      "Avatar video ready!" ∈ sent_on ws s'
    ∧ serve_video (files s') ("avatar_" ++ timestamp b ++ ".mp4")
      = FileResponse
          (path_join output_dir ("avatar_" ++ timestamp b ++ ".mp4"))
          "video/mp4".
Proof.
  intros b session_id u ws s s' Hts H.
  unfold process_user_input_body in H.
  apply bind_ok in H as (r & sa & _ & H).
  apply bind_ok in H as ([] & sb & _ & H).
  destruct (deliver_stage_ok_video _ _ _ _ _ H)
    as (Hsent & Hlen & video & Hvideo).
  set (name := ("avatar_" ++ timestamp b ++ ".mp4")%string) in *.
  assert (Hname : no_slash name = true).
  { unfold name. rewrite !no_slash_append, Hts. reflexivity. }
  assert (Hempty : name ≠ "") by (intros E; discriminate E).
  assert (Hdot : name ≠ ".").
  { intros E. unfold name in E. rewrite !string_append_cons in E.
    discriminate E. }
  assert (Hdots : name ≠ "..").
  { intros E. unfold name in E. rewrite !string_append_cons in E.
    discriminate E. }
  rewrite path_name_of_join_aux in Hsent, Hlen by done.
  split; [exact Hsent|].
  unfold serve_video, video_path_exists, video_path_of.
  rewrite decide_False by (unfold NAME_MAX in *; lia).
  rewrite (decide_False (P := name = "..")) by done.
  rewrite !decide_False by (by intros [?|?]).
  by rewrite bool_decide_eq_true_2 by eauto.
Qed.

Lemma video_ready_url_is_served_witness :
  let s' :=
    (process_user_input_body Sample.all_well "session_1" "hello" 7
       Sample.one_client).2 in
  no_slash (timestamp Sample.all_well) = true
  ∧ process_user_input_body Sample.all_well "session_1" "hello" 7
      Sample.one_client = (Ok tt, s')
  ∧ VideoReady
      ("/video/" ++ "avatar_" ++ timestamp Sample.all_well ++ ".mp4")
      "Avatar video ready!" ∈ sent_on 7 s'
  ∧ serve_video (files s')
      ("avatar_" ++ timestamp Sample.all_well ++ ".mp4")
    = FileResponse
        (path_join output_dir
           ("avatar_" ++ timestamp Sample.all_well ++ ".mp4"))
        "video/mp4".
Proof.
  intros s'.
  assert (H1 : no_slash (timestamp Sample.all_well) = true) by reflexivity.
  assert (H2 : process_user_input_body Sample.all_well "session_1" "hello"
                 7 Sample.one_client = (Ok tt, s')).
  { vm_compute. reflexivity. }
  split; [exact H1|]. split; [exact H2|].
  exact (video_ready_url_is_served Sample.all_well "session_1" "hello" 7
           Sample.one_client s' H1 H2).
Defined.

(** ** Initialisation of the avatar service on first use *)

#[local] Instance files_only_preorder : PreOrder files_only.
Proof.
  split; [by intros s|].
  intros s1 s2 s3 (?&?&?&?&?&?) (?&?&?&?&?&?).
  unfold files_only. repeat split; congruence.
Qed.

Lemma mkdir_exist_ok_files_only path : preserves files_only (mkdir_exist_ok path).
Proof. intros s. unfold mkdir_exist_ok. by repeat case_match. Qed.

Lemma save_video_files_only output_path video :
  preserves files_only (save_video output_path video).
Proof. intros s. unfold save_video. by case_decide. Qed.

Lemma generate_sync_files_only b audio_path prompt image n seed :
  preserves files_only (generate_sync b audio_path prompt image n seed).
Proof.
  unfold generate_sync.
  apply preserves_bind; [tc_solve|apply preserves_lift; tc_solve|intros ?].
  apply preserves_bind;
    [tc_solve|apply mkdir_exist_ok_files_only|intros ?].
  apply preserves_bind;
    [tc_solve|apply mkdir_exist_ok_files_only|intros ?].
  apply preserves_bind; [tc_solve|apply save_video_files_only|intros ?].
  apply preserves_ret; tc_solve.
Qed.

(** X14.  A call of [generate_avatar_video] on the service object of the
    server, not yet initialised, loads the pipeline first.  When the
    loading fails, the call raises that error, nothing is rendered, and
    the flag, the registry, the files and the connections are as they
    were.  When it succeeds, the service is initialised from then on,
    whatever the render does, and the health answer reports it. *)
Theorem avatar_initialised_on_first_use :
  ∀ (b : backend) (self : AvatarService) (audio_path : string)
    (prompt reference_image : option string) (num_clips : nat) (seed : Z)
    (s : server),
    avatar_service s = Some self →
    is_initialized self = false →
    match load_pipeline b with
    | Raise e =>
        generate_avatar_video b self audio_path prompt reference_image
          num_clips seed s = (Raise e, s)
    | Ok _ =>
        let s' :=
          (generate_avatar_video b self audio_path prompt reference_image
             num_clips seed s).2 in
        avatar_service s' = Some {| is_initialized := true |}
        ∧ avatar (services (health_check s')) = true
    end.
Proof.
  intros b self audio_path prompt reference_image num_clips seed s
    Hself Hinit.
  destruct (load_pipeline b) as [[]|e] eqn:Hload.
  - set (s1 := set_avatar (Some {| is_initialized := true |}) s).
    assert (Hrun :
      generate_avatar_video b self audio_path prompt reference_image
        num_clips seed s
      = generate_sync b audio_path
          (py_or prompt (default_avatar_prompt (settings b)))
          (py_or reference_image (default_avatar_image (settings b)))
          num_clips seed s1).
    { unfold generate_avatar_video, initialize_sync. rewrite Hinit. simpl.
      unfold bind at 1. unfold bind at 1. unfold lift. rewrite Hload.
      unfold set_initialized, modify. by rewrite decide_True. }
    intros s'. unfold s'. rewrite Hrun.
    destruct (generate_sync_files_only b audio_path
                (py_or prompt (default_avatar_prompt (settings b)))
                (py_or reference_image (default_avatar_image (settings b)))
                num_clips seed s1) as (_ & _ & _ & _ & _ & Havatar).
    split; [exact Havatar|]. unfold health_check. simpl. by rewrite Havatar.
  - unfold generate_avatar_video, initialize_sync. rewrite Hinit. simpl.
    unfold bind at 1. unfold bind at 1. unfold lift. by rewrite Hload.
Qed.

Lemma avatar_initialised_on_first_use_witness :
  avatar_service Scenario.not_loaded = Some {| is_initialized := false |}
  ∧ is_initialized {| is_initialized := false |} = false
  ∧ match load_pipeline Sample.render_fails with
    | Raise e =>
        generate_avatar_video Sample.render_fails
          {| is_initialized := false |} "/tmp/tmp0.mp3" None None 1 420
          Scenario.not_loaded = (Raise e, Scenario.not_loaded)
    | Ok _ =>
        let s' :=
          (generate_avatar_video Sample.render_fails
             {| is_initialized := false |} "/tmp/tmp0.mp3" None None 1 420
             Scenario.not_loaded).2 in
        avatar_service s' = Some {| is_initialized := true |}
        ∧ avatar (services (health_check s')) = true
    end.
Proof.
  assert (H1 : avatar_service Scenario.not_loaded
               = Some {| is_initialized := false |}) by reflexivity.
  assert (H2 : is_initialized {| is_initialized := false |} = false)
    by reflexivity.
  split; [exact H1|]. split; [exact H2|].
  exact (avatar_initialised_on_first_use Sample.render_fails
           {| is_initialized := false |} "/tmp/tmp0.mp3" None None 1 420
           Scenario.not_loaded H1 H2).
Defined.

(** ** The end of a connection *)

Lemma receive_loop_stops b session_id ws pre stop rest s :
  stop = ReceiveText None ∨ stop = ReceiveDisconnect →
  receive_loop b session_id ws (pre ++ stop :: rest) s
  = receive_loop b session_id ws (pre ++ [stop]) s.
Proof.
  intros Hstop. revert s.
  induction pre as [|message pre IH]; intros s.
  - by destruct Hstop as [-> | ->].
  - destruct message as [[data|]|audio_data|]; simpl; try done.
    + unfold bind.
      by destruct (handle_message b session_id data ws s) as [[[]|e] s1].
    + unfold bind.
      by destruct (handle_audio b session_id audio_data ws s)
        as [[[]|e] s1].
Qed.

(** X15.  A text frame that is not valid JSON, or the disconnect message,
    ends the connection: whatever frames follow are never handled.  The
    endpoint behaves as if they had not been sent. *)
Theorem frames_after_the_end_are_ignored :
  ∀ (b : backend) (session_id : string) (ws : nat)
    (pre rest : list received) (s : server),
    websocket_endpoint b session_id ws (pre ++ ReceiveText None :: rest) s
    = websocket_endpoint b session_id ws (pre ++ [ReceiveText None]) s
    ∧ websocket_endpoint b session_id ws
        (pre ++ ReceiveDisconnect :: rest) s
      = websocket_endpoint b session_id ws (pre ++ [ReceiveDisconnect]) s.
Proof.
  intros b session_id ws pre rest s.
  unfold websocket_endpoint, bind at 1, bind at 2, bind at 3, bind at 4,
    modify, try_finally, try_except.
  split; unfold bind; destruct (send_json _ _ _) as [[[]|e] s1];
    try done; by rewrite receive_loop_stops by eauto.
Qed.

(** ** Frames that start no turn *)

(** X16.  A JSON message whose type is not [text_input] starts no turn:
    on a connection that stays, [config] is answered with one
    [config_updated] frame and any other type with nothing; the history,
    the files and the services are as they were. *)
Theorem other_messages_start_no_turn :
  ∀ (b : backend) (session_id : string) (ws : nat)
    (data : gmap string string) (s : server),
    data !! "type" ≠ Some "text_input" →
    socket_open ws s →
    ∃ s',
      handle_message b session_id data ws s = (Ok tt, s')
      ∧ sockets_only s s'
      ∧ sent_on ws s'
        = (sent_on ws s
             ++ if decide (data !! "type" = Some "config")
                then [ConfigUpdated "Configuration updated"] else [])%list.
Proof.
  intros b session_id ws data s Htype [out Hout].
  unfold handle_message. rewrite decide_False by done.
  case_decide as Hconfig.
  - rewrite (send_json_open_run _ _ _ _ Hout). eexists.
    split; [done|]. split; [done|].
    unfold sent_on. simpl. by rewrite lookup_insert_eq, Hout.
  - exists s. split; [done|]. split; [done|]. by rewrite app_nil_r.
Qed.

Lemma other_messages_start_no_turn_witness :
  let data : gmap string string := {[ "type" := "config" ]} in
  data !! "type" ≠ Some "text_input"
  ∧ socket_open 7 Sample.one_client
  ∧ ∃ s',
      handle_message Sample.all_well "session_1" data 7 Sample.one_client
      = (Ok tt, s')
      ∧ sockets_only Sample.one_client s'
      ∧ sent_on 7 s'
        = (sent_on 7 Sample.one_client
             ++ if decide (data !! "type" = Some "config")
                then [ConfigUpdated "Configuration updated"] else [])%list.
Proof.
  intros data.
  assert (H1 : data !! "type" ≠ Some "text_input").
  { intros E. vm_compute in E. discriminate E. }
  assert (H2 : socket_open 7 Sample.one_client).
  { exists []. reflexivity. }
  split; [exact H1|]. split; [exact H2|].
  exact (other_messages_start_no_turn Sample.all_well "session_1" 7 data
           Sample.one_client H1 H2).
Defined.

(** ** Where the stored reply comes from *)

Lemma generate_stage_ok_model b session_id u ws s r s1 :
  generate_stage b session_id u ws s = (Ok r, s1) →
  ∃ ss llm,
    active_sessions s !! session_id = Some ss
    ∧ llm_service s = Some llm
    ∧ chat_completion b
        ([Message System (system_prompt llm)] ++ conversation_history ss
           ++ [Message User u])%list = Ok r.
Proof.
  unfold generate_stage. intros H.
  apply bind_ok in H as (ss & sa & Ha & H).
  unfold lookup_session in Ha.
  destruct (active_sessions s !! session_id) as [x|] eqn:Hss;
    [|discriminate]. injection Ha as -> <-.
  apply bind_ok in H as ([] & sb & Hb & H).
  destruct (preserves_run sockets_only _ _ _ _
              (send_json_sockets_only _ _) Hb)
    as (_ & _ & _ & _ & Hllm & _).
  apply bind_ok in H as (sc & ? & [= <- <-] & H).
  apply bind_ok in H as (r' & sd & Hd & H).
  apply bind_ok in H as ([] & se & He & [= <- <-]).
  destruct (llm_service sb) as [llm|]; [|discriminate].
  unfold generate_response, lift in Hd. injection Hd as Hchat _.
  by exists ss, llm.
Qed.

(** X17.  In a turn that ran to its end, the reply sent to the client and
    stored in the history is the language model's answer to exactly this
    request: the system prompt, then the history as it was stored before
    the turn, then the new user text.  The history after the turn is the
    history before it with this pair committed. *)
Theorem stored_reply_is_model_answer :
  ∀ (b : backend) (session_id u : string) (ws : nat) (s s' : server),
    process_user_input_body b session_id u ws s = (Ok tt, s') →
    ∃ llm h r,
      llm_service s = Some llm
      ∧ history_of session_id s = Some h
      ∧ chat_completion b
          ([Message System (system_prompt llm)] ++ h
             ++ [Message User u])%list = Ok r
      ∧ Response r ∈ sent_on ws s'
      ∧ history_of session_id s' = Some (commit h u r).
Proof.
  intros b session_id u ws s s' H.
  unfold process_user_input_body in H.
  apply bind_ok in H as (r & sa & Ha & H).
  apply bind_ok in H as ([] & sb & Hb & H).
  destruct (generate_stage_ok_model _ _ _ _ _ _ _ Ha)
    as (ss & llm & Hss & Hllm & Hchat).
  exists llm, (conversation_history ss), r.
  assert (Hh : history_of session_id s = Some (conversation_history ss)).
  { unfold history_of. by rewrite Hss. }
  pose proof (preserves_run same_sessions _ _ _ _
                (generate_stage_same_sessions b session_id ws u) Ha) as Sa.
  pose proof (preserves_run same_sessions _ _ _ _
                (deliver_stage_same_sessions b ws r) H) as Sd.
  assert (Hsb : sb = (commit_stage session_id u r sa).2) by (by rewrite Hb).
  repeat split; try done.
  - destruct (preserves_run (emits ws (λ f, is_error f = false)) _ _ _ _
                (deliver_stage_no_error b ws r) H) as [(F & EF & _) _].
    rewrite EF.
    rewrite (same_sockets_sent_on ws sa sb).
    + rewrite (generate_stage_ok _ _ _ _ _ _ _ Ha). set_solver.
    + eapply (preserves_run same_sockets);
        [apply commit_stage_same_sockets|exact Hb].
  - rewrite (same_sessions_history _ _ _ Sd), Hsb, commit_stage_history.
    by rewrite (same_sessions_history _ _ _ Sa), Hh.
Qed.

Lemma stored_reply_is_model_answer_witness :
  let s' :=
    (process_user_input_body Sample.all_well "session_1" "hello" 7
       Sample.one_client).2 in
  process_user_input_body Sample.all_well "session_1" "hello" 7
    Sample.one_client = (Ok tt, s')
  ∧ ∃ llm h r,
      llm_service Sample.one_client = Some llm
      ∧ history_of "session_1" Sample.one_client = Some h
      ∧ chat_completion Sample.all_well
          ([Message System (system_prompt llm)] ++ h
             ++ [Message User "hello"])%list = Ok r
      ∧ Response r ∈ sent_on 7 s'
      ∧ history_of "session_1" s' = Some (commit h "hello" r).
Proof.
  intros s'.
  assert (H : process_user_input_body Sample.all_well "session_1" "hello"
                7 Sample.one_client = (Ok tt, s')).
  { vm_compute. reflexivity. }
  split; [exact H|].
  exact (stored_reply_is_model_answer Sample.all_well "session_1" "hello" 7
           Sample.one_client s' H).
Defined.

(** ** Failures inside a turn *)

Lemma bind_get {B} (k : server → M B) s : bind get k s = k s s.
Proof. reflexivity. Qed.

Lemma fst_bind_raise {A B} (m : M A) (k : A → M B) s e :
  (m s).1 = Raise e → (bind m k s).1 = Raise e.
Proof.
  unfold bind. destruct (m s) as [[a|e'] s1]; simpl; intros H;
    [discriminate H|by injection H as ->].
Qed.

Lemma send_json_open_step ws f s :
  socket_open ws s →
  ∃ s1, send_json ws f s = (Ok tt, s1) ∧ socket_open ws s1
        ∧ sockets_only s s1.
Proof.
  intros Hopen. destruct (send_json_open ws f s Hopen) as (s1 & Hs & Ho).
  exists s1. split; [done|]. split; [done|].
  by eapply (preserves_run sockets_only); [apply send_json_sockets_only|].
Qed.

Lemma files_only_socket_open ws s s' :
  files_only s s' → socket_open ws s → socket_open ws s'.
Proof. intros (_ & Hs & _). unfold socket_open. by rewrite Hs. Qed.

Lemma synthesize_run b text s :
  match speech b text with
  | Ok audio =>
      ∃ s1,
        synthesize b text s
        = (Ok ("/tmp/tmp" ++ pretty (tmp_counter s) ++ ".mp3"), s1)
        ∧ files_only s s1
  | Raise e => (synthesize b text s).1 = Raise e
  end.
Proof.
  unfold synthesize, bind, named_temporary_file, write_file, modify, lift,
    ret.
  destruct (speech b text) as [audio|e]; simpl; [|done].
  eexists. split; [reflexivity|done].
Qed.

Lemma transcribe_run b audio_data s :
  match whisper b audio_data with
  | Ok text =>
      ∃ s1,
        transcribe b audio_data s = (Ok text, s1)
        ∧ files_only s s1
        ∧ tmp_counter s1 = S (tmp_counter s)
  | Raise e => (transcribe b audio_data s).1 = Raise e
  end.
Proof.
  unfold transcribe, bind, named_temporary_file, write_file, modify, lift,
    unlink, ret.
  destruct (whisper b audio_data) as [text|e]; simpl; [|done].
  rewrite lookup_insert_eq. eexists. split; [reflexivity|done].
Qed.

(** The render of a turn raises what the loading or the pipeline
    raises. *)
Lemma render_raises b avatar audio_path s e :
  (is_initialized avatar = false ∧ load_pipeline b = Raise e)
  ∨ ((is_initialized avatar = true ∨ load_pipeline b = Ok tt)
     ∧ pipeline_generate b (default_avatar_prompt (settings b))
         (default_avatar_image (settings b)) audio_path 1 420 = Raise e) →
  (generate_avatar_video b avatar audio_path None None 1 420 s).1 = Raise e.
Proof.
  unfold generate_avatar_video, initialize_sync, generate_sync,
    set_initialized, bind, lift, modify, ret.
  intros [[Hinit Hload]|[Hor Hpipe]].
  - by rewrite Hinit, Hload.
  - destruct (is_initialized avatar); simpl.
    + by rewrite Hpipe.
    + destruct Hor as [[=]|Hload]. rewrite Hload. simpl. by rewrite Hpipe.
Qed.

Lemma delivery_failure_transfer b s s' r e :
  tts_service s' = tts_service s →
  avatar_service s' = avatar_service s →
  tmp_counter s' = tmp_counter s →
  delivery_failure b s r e → delivery_failure b s' r e.
Proof.
  intros Htts Hav Htmp
    [tts e0 H1 H2|tts audio av e0 H1 H2 H3 H4 H5|tts audio av e0 H1 H2 H3 H4 H5].
  - eapply synthesis_fails; [by rewrite Htts|done].
  - eapply loading_fails; [by rewrite Htts|done|by rewrite Hav|done|done].
  - eapply rendering_fails;
      [by rewrite Htts|done|by rewrite Hav|done|by rewrite Htmp].
Qed.

Lemma turn_failure_transfer b session_id u s s' e :
  active_sessions s' = active_sessions s →
  llm_service s' = llm_service s →
  tts_service s' = tts_service s →
  avatar_service s' = avatar_service s →
  tmp_counter s' = tmp_counter s →
  turn_failure b session_id u s e → turn_failure b session_id u s' e.
Proof.
  intros Hs Hllm Htts Hav Htmp [ss llm e0 H1 H2 H3|ss llm r e0 H1 H2 H3 H4].
  - eapply generation_fails; [by rewrite Hs|by rewrite Hllm|done].
  - eapply delivery_fails; [by rewrite Hs|by rewrite Hllm|done|].
    by eapply delivery_failure_transfer.
Qed.

Section FailingTurn.

Variables (b : backend) (session_id : string) (ws : nat).

Lemma delivery_failure_raises r s e :
  socket_open ws s → delivery_failure b s r e →
  (deliver_stage b r ws s).1 = Raise e.
Proof.
  intros Hopen Hfail. unfold deliver_stage.
  destruct (send_json_open_step ws
              (Status synthesizing "Synthesizing speech...") s Hopen)
    as (s1 & Hs1 & Ho1 & (_ & _ & Htmp1 & _ & _ & Htts1 & Hav1)).
  rewrite (bind_step _ _ _ _ _ Hs1), bind_get, Htts1.
  pose proof (synthesize_run b r s1) as Hsyn.
  destruct Hfail as [tts e Htts Hsp|tts audio av e Htts Hsp Hav Hinit Hload
                    |tts audio av e Htts Hsp Hav Hor Hpipe];
    rewrite Htts; rewrite Hsp in Hsyn.
  - by apply fst_bind_raise.
  - destruct Hsyn as (s2 & Hs2 & F2).
    rewrite (bind_step _ _ _ _ _ Hs2).
    destruct (send_json_open_step ws
                (Status generating_video "Generating avatar video...") s2
                (files_only_socket_open _ _ _ F2 Ho1))
      as (s3 & Hs3 & Ho3 & (_ & _ & _ & _ & _ & _ & Hav3)).
    rewrite (bind_step _ _ _ _ _ Hs3), bind_get.
    destruct F2 as (_ & _ & _ & _ & _ & Hav2).
    rewrite Hav3, Hav2, Hav1, Hav.
    apply fst_bind_raise, render_raises. by left.
  - destruct Hsyn as (s2 & Hs2 & F2).
    rewrite (bind_step _ _ _ _ _ Hs2).
    destruct (send_json_open_step ws
                (Status generating_video "Generating avatar video...") s2
                (files_only_socket_open _ _ _ F2 Ho1))
      as (s3 & Hs3 & Ho3 & (_ & _ & _ & _ & _ & _ & Hav3)).
    rewrite (bind_step _ _ _ _ _ Hs3), bind_get.
    destruct F2 as (_ & _ & _ & _ & _ & Hav2).
    rewrite Hav3, Hav2, Hav1, Hav, Htmp1.
    apply fst_bind_raise, render_raises. by right.
Qed.

Lemma generate_stage_run u s ss llm :
  active_sessions s !! session_id = Some ss →
  llm_service s = Some llm →
  socket_open ws s →
  match chat_completion b
          ([Message System (system_prompt llm)] ++ conversation_history ss
             ++ [Message User u])%list with
  | Raise e => (generate_stage b session_id u ws s).1 = Raise e
  | Ok r =>
      ∃ s1,
        generate_stage b session_id u ws s = (Ok r, s1)
        ∧ socket_open ws s1 ∧ sockets_only s s1
  end.
Proof.
  intros Hss Hllm Hopen. unfold generate_stage.
  assert (Hlook : lookup_session session_id s = (Ok ss, s)).
  { unfold lookup_session. by rewrite Hss. }
  rewrite (bind_step _ _ _ _ _ Hlook).
  destruct (send_json_open_step ws
              (Status thinking "Generating response...") s Hopen)
    as (s1 & Hs1 & Ho1 & So1).
  rewrite (bind_step _ _ _ _ _ Hs1), bind_get.
  destruct So1 as (Hsess1 & Hfiles1 & Htmp1 & Hstt1 & Hllm1 & Htts1 & Hav1).
  rewrite Hllm1, Hllm. unfold generate_response, lift.
  destruct (chat_completion b _) as [r|e]; [|done].
  unfold bind at 1.
  destruct (send_json_open_step ws (Response r) s1 Ho1)
    as (s2 & Hs2 & Ho2 & So2).
  rewrite (bind_step _ _ _ _ _ Hs2). exists s2.
  split; [done|]. split; [done|].
  etrans; [|exact So2]. unfold sockets_only. by repeat split.
Qed.

Lemma turn_failure_raises u s e :
  socket_open ws s → turn_failure b session_id u s e →
  (process_user_input_body b session_id u ws s).1 = Raise e.
Proof.
  intros Hopen [ss llm e0 Hss Hllm Hchat|ss llm r e0 Hss Hllm Hchat Hfail];
    pose proof (generate_stage_run u s ss llm Hss Hllm Hopen) as Hgen;
    rewrite Hchat in Hgen.
  - unfold process_user_input_body. by apply fst_bind_raise.
  - destruct Hgen as (s1 & Hg & Ho1 & So1).
    rewrite (body_after_generate _ _ _ _ _ _ _ Hg).
    destruct So1 as (_ & _ & Htmp1 & _ & _ & Htts1 & Hav1).
    apply delivery_failure_raises.
    + destruct Ho1 as [out Hout]. by exists out.
    + by eapply delivery_failure_transfer; [| | |exact Hfail].
Qed.

Lemma transcribe_stage_run audio_data s :
  is_Some (stt_service s) →
  socket_open ws s →
  match whisper b audio_data with
  | Raise e => (transcribe_stage b audio_data ws s).1 = Raise e
  | Ok text =>
      ∃ s1,
        transcribe_stage b audio_data ws s = (Ok text, s1)
        ∧ socket_open ws s1
        ∧ active_sessions s1 = active_sessions s
        ∧ llm_service s1 = llm_service s
        ∧ tts_service s1 = tts_service s
        ∧ avatar_service s1 = avatar_service s
        ∧ tmp_counter s1 = S (tmp_counter s)
  end.
Proof.
  intros [stt Hstt] Hopen. unfold transcribe_stage.
  destruct (send_json_open_step ws
              (Status transcribing "Transcribing your speech...") s Hopen)
    as (s1 & Hs1 & Ho1 & So1).
  rewrite (bind_step _ _ _ _ _ Hs1), bind_get.
  destruct So1 as (Hsess1 & Hfiles1 & Htmp1 & Hstt1 & Hllm1 & Htts1 & Hav1).
  rewrite Hstt1, Hstt.
  pose proof (transcribe_run b audio_data s1) as Hrun.
  destruct (whisper b audio_data) as [text|e].
  - destruct Hrun as (s2 & Hs2 & F2 & Htmp2).
    rewrite (bind_step _ _ _ _ _ Hs2).
    destruct (send_json_open_step ws (Transcription text) s2
                (files_only_socket_open _ _ _ F2 Ho1))
      as (s3 & Hs3 & Ho3 & So3).
    rewrite (bind_step _ _ _ _ _ Hs3). exists s3.
    destruct F2 as (Hsess2 & _ & _ & Hllm2 & Htts2 & Hav2).
    destruct So3 as (Hsess3 & _ & Htmp3 & _ & Hllm3 & Htts3 & Hav3).
    repeat split; try done; congruence.
  - by apply fst_bind_raise.
Qed.

End FailingTurn.

(** C5, as stated, fails.  The render engine raises in a turn whose client
    takes the four frames up to that point and is gone: the error frame
    cannot be sent, none is, the exception leaves the handler, and it
    ends the receive loop of the connection, so that the frame after it
    is never handled. *)
Lemma peer_gone_no_error_frame :
  let run :=
    dispatch Sample.render_fails "session_1" 7 Scenario.hello
      Scenario.leaving_client in
  back_end_failure Sample.render_fails "session_1" Scenario.hello
    Scenario.leaving_client (Exn "RenderError")
  ∧ run.1 = Raise (Exn "WebSocketDisconnect")
  ∧ sent_on 7 run.2
    = [ Status thinking "Generating response...";
        Response "Hi! How can I help?";
        Status synthesizing "Synthesizing speech...";
        Status generating_video "Generating avatar video..." ]
  ∧ receive_loop Sample.render_fails "session_1" 7
      [Scenario.hello; Scenario.hello] Scenario.leaving_client
    = (Raise (Exn "WebSocketDisconnect"), run.2).
Proof.
  split; [|by vm_compute].
  split; [reflexivity|].
  eapply (delivery_fails _ _ _ _ (Session [] 7)
            {| system_prompt := "You are a friendly avatar." |}
            "Hi! How can I help?"); try reflexivity.
  eapply (rendering_fails _ _ _ {| tts_voice := "alloy" |}
            [Byte.x49; Byte.x44; Byte.x33] {| is_initialized := true |});
    try reflexivity.
  by left.
Qed.

(** C5, amended.  On a connection whose peer stays, when a back end fails
    during a turn -- Whisper, the language model, speech synthesis, the
    loading of the pipeline or the render -- with exception [e]: the
    handler returns, the receive loop goes on to the next frame, the
    connection is still open and the session still registered; and the
    frames of the turn are frames that are not error frames followed by
    exactly one error frame, whose message is the prefix of the handler
    and the text of [e]. *)
Theorem back_end_failure_one_error_frame :
  ∀ (b : backend) (session_id : string) (ws : nat) (message : received)
    (rest : list received) (s : server) (e : exn),
    socket_open ws s →
    back_end_failure b session_id message s e →
    ∃ s' F0 prefix,
      dispatch b session_id ws message s = (Ok tt, s')
      ∧ receive_loop b session_id ws (message :: rest) s
        = receive_loop b session_id ws rest s'
      ∧ socket_open ws s'
      ∧ same_registered s s'
      ∧ sent_on ws s'
        = (sent_on ws s ++ F0 ++ [Error (prefix ++ exn_str e)])%list
      ∧ no_error F0
      ∧ (prefix = "Processing failed: "
         ∨ prefix = "Audio processing failed: ").
Proof.
  intros b session_id ws message rest s e Hopen Hfail.
  assert (Hloop : ∀ s', dispatch b session_id ws message s = (Ok tt, s') →
            receive_loop b session_id ws (message :: rest) s
            = receive_loop b session_id ws rest s').
  { intros s' Hd. destruct message as [[data|]|audio_data|]; try done;
      simpl; by rewrite (bind_step _ _ _ _ _ Hd). }
  assert (Htext : ∀ u s0,
            socket_open ws s0 → turn_failure b session_id u s0 e →
            ∃ s' F0,
              process_user_input b session_id u ws s0 = (Ok tt, s')
              ∧ socket_open ws s'
              ∧ same_registered s0 s'
              ∧ sent_on ws s'
                = (sent_on ws s0 ++ F0
                     ++ [Error ("Processing failed: " ++ exn_str e)])%list
              ∧ no_error F0).
  { intros u s0 Ho0 Hturn.
    pose proof (turn_failure_raises b session_id ws u s0 e Ho0 Hturn)
      as Hraise.
    destruct (process_user_input_open b session_id ws u s0 Ho0)
      as (s' & F & Hrun & Ho & EF & Hcase).
    destruct Hcase as [[Hbody _]|(e' & s1 & F0 & Hbody & -> & HF0)];
      rewrite Hbody in Hraise; simpl in Hraise; [discriminate Hraise|].
    injection Hraise as ->.
    exists s', F0. repeat split; try done.
    by eapply (preserves_run same_registered);
      [apply process_user_input_registered|]. }
  destruct message as [[data|]|audio_data|]; simpl in Hfail; try done.
  - (* text input *)
    destruct Hfail as [Htype Hturn].
    destruct (Htext _ s Hopen Hturn) as (s' & F0 & Hrun & Ho & Hreg & EF & HF0).
    assert (Hd : dispatch b session_id ws (ReceiveText (Some data)) s
                 = (Ok tt, s')).
    { simpl. unfold handle_message. by rewrite decide_True. }
    exists s', F0, "Processing failed: ".
    repeat split; try done; [by apply Hloop|by left].
  - (* audio *)
    destruct Hfail as [Hstt Hfail].
    pose proof (transcribe_stage_run b ws audio_data s Hstt Hopen) as Hrun.
    pose proof (transcribe_stage_no_error b ws audio_data s)
      as [(F1 & E1 & HF1) Ho1].
    pose proof (transcribe_stage_same_sessions b ws audio_data s) as Hs1.
    destruct Hfail as [Hw|(t & Hw & Hturn)]; rewrite Hw in Hrun.
    + (* Whisper fails *)
      destruct (transcribe_stage b audio_data ws s) as [[t|e'] s1] eqn:Ht;
        simpl in *; [discriminate Hrun|]. injection Hrun as ->.
      destruct (send_json_open ws
        (Error ("Audio processing failed: " ++ exn_str e)) s1 (Ho1 Hopen))
        as (s' & Hsend & Ho).
      assert (Hd : handle_audio b session_id audio_data ws s = (Ok tt, s')).
      { unfold handle_audio, try_except.
        by rewrite (bind_stop _ _ _ _ _ Ht). }
      exists s', F1, "Audio processing failed: ".
      repeat split; try done.
      * by apply Hloop.
      * unfold same_registered. etrans.
        { by eapply (preserves_run same_registered);
            [apply same_sessions_registered, send_json_same_sessions|]. }
        unfold same_sessions in Hs1. by rewrite Hs1.
      * by rewrite (send_json_ok _ _ _ _ _ Hsend), E1, app_assoc.
      * by right.
    + (* a later back end fails *)
      destruct Hrun as (s1 & Ht & Ho & Hsess & Hllm & Htts & Hav & Htmp).
      rewrite Ht in E1, Hs1. simpl in E1, Hs1.
      assert (Hturn1 : turn_failure b session_id t s1 e).
      { by eapply turn_failure_transfer; [| | | | |exact Hturn]. }
      destruct (Htext _ s1 Ho Hturn1)
        as (s' & F0 & Hrun & Ho' & Hreg & EF & HF0).
      assert (Hd : handle_audio b session_id audio_data ws s = (Ok tt, s')).
      { unfold handle_audio, try_except.
        by rewrite (bind_step _ _ _ _ _ Ht), Hrun. }
      exists s', (F1 ++ F0)%list, "Processing failed: ".
      repeat split; try done.
      * by apply Hloop.
      * unfold same_registered in *. by rewrite Hreg, Hsess.
      * by rewrite EF, E1, <- !app_assoc.
      * by apply Forall_app.
      * by left.
Qed.

Lemma back_end_failure_one_error_frame_witness :
  socket_open 7 Sample.one_client
  ∧ back_end_failure Sample.render_fails "session_1"
      (ReceiveBytes Sample.audio) Sample.one_client (Exn "RenderError")
  ∧ ∃ s' F0 prefix,
      dispatch Sample.render_fails "session_1" 7 (ReceiveBytes Sample.audio)
        Sample.one_client = (Ok tt, s')
      ∧ receive_loop Sample.render_fails "session_1" 7
          [ReceiveBytes Sample.audio] Sample.one_client
        = receive_loop Sample.render_fails "session_1" 7 [] s'
      ∧ socket_open 7 s'
      ∧ same_registered Sample.one_client s'
      ∧ sent_on 7 s'
        = (sent_on 7 Sample.one_client ++ F0
             ++ [Error (prefix ++ exn_str (Exn "RenderError"))])%list
      ∧ no_error F0
      ∧ (prefix = "Processing failed: "
         ∨ prefix = "Audio processing failed: ").
Proof.
  assert (H1 : socket_open 7 Sample.one_client).
  { exists []. reflexivity. }
  assert (H2 : back_end_failure Sample.render_fails "session_1"
                 (ReceiveBytes Sample.audio) Sample.one_client
                 (Exn "RenderError")).
  { split; [by eexists|]. right. exists "hello". split; [reflexivity|].
    eapply (delivery_fails _ _ _ _ (Session [] 7)
              {| system_prompt := "You are a friendly avatar." |}
              "Hi! How can I help?"); try reflexivity.
    eapply (rendering_fails _ _ _ {| tts_voice := "alloy" |}
              [Byte.x49; Byte.x44; Byte.x33] {| is_initialized := true |});
      try reflexivity.
    left. reflexivity. }
  split; [exact H1|]. split; [exact H2|].
  exact (back_end_failure_one_error_frame Sample.render_fails "session_1" 7
           (ReceiveBytes Sample.audio) [] Sample.one_client
           (Exn "RenderError") H1 H2).
Defined.
